(** * DreamGaussian GUI: the job queue and the generation pipeline

    A shallow embedding of [dream_gui.py]: the prompt validation and job
    submission of [enqueue_job], the single-worker dispatch of [poll_queue]
    and [process_next_job], and the pipeline of [run_job],
    [run_dreamgaussian] and [obj_to_vox].

    Python code is written in a small free monad: a program is a tree of
    effects ([self] attribute accesses, queue and listbox operations, thread
    start, prints, dialogs and the calls to external tools), each followed by
    a continuation that receives the effect's result.  The main thread and
    the worker threads are interleaved one effect at a time.

    What is taken from outside the program:
    - the Tk main loop runs callbacks one at a time on the main thread, and
      tk calls (variables, listbox, dialogs, [after]) return normally;
    - what the external tools answer ([os.listdir], the generation
      subprocess, the [obj2vox] import and call, the preview rendering) is
      chosen by the environment at each call, and what they raise is an
      instance of [Exception];
    - the working directory does not change while the program runs. *)

From Stdlib Require Import String Ascii List NArith ZArith Bool Lia DecimalString.
Import ListNotations.
Open Scope string_scope.
Open Scope list_scope.

Infix "+++" := String.append (right associativity, at level 60).

(** ** Python primitives used by the program

    A Python [str] is a sequence of Unicode code points.  It is held here as
    the [string] of the bytes of its UTF-8 encoding, [utf8] below: equal
    strings have equal encodings and the encoding of a concatenation is the
    concatenation of the encodings, so comparing, joining and testing for
    the empty string are done on the bytes.  [str.strip] is the one
    operation of the program that looks at characters; it reads them back
    from the bytes. *)

Module Py.

(** Truth value of a [str]: the empty string is falsy. *)
Definition truthy (s : string) : bool := negb (s =? "").

(** [c.isspace()] for a code point [c]: the characters [str.strip()]
    removes.  TAB..CR, FS..US, SPACE, NEL, NBSP, OGHAM SPACE MARK, EN QUAD..
    HAIR SPACE, LINE and PARAGRAPH SEPARATOR, NARROW NBSP, MEDIUM
    MATHEMATICAL SPACE, IDEOGRAPHIC SPACE. *)
Definition isspace (c : N) : bool :=
  (((0x09 <=? c) && (c <=? 0x0D)) || ((0x1C <=? c) && (c <=? 0x20))
   || (c =? 0x85) || (c =? 0xA0) || (c =? 0x1680)
   || ((0x2000 <=? c) && (c <=? 0x200A))
   || (c =? 0x2028) || (c =? 0x2029) || (c =? 0x202F) || (c =? 0x205F)
   || (c =? 0x3000))%N.

(** A byte [10xxxxxx], which continues a character. *)
Definition trail (n : N) : bool := ((0x80 <=? n) && (n <? 0xC0))%N.

Definition continuation (b : ascii) : bool := trail (N_of_ascii b).

(** The characters of a string, each as its bytes: a byte that is not a
    continuation byte, with the continuation bytes that follow it. *)
Fixpoint chars (s : string) : list string :=
  match s with
  | EmptyString => []
  | String b s' =>
      match chars s' with
      | String b' ch :: rest =>
          if continuation b' then String b (String b' ch) :: rest
          else String b EmptyString :: String b' ch :: rest
      | rest => String b EmptyString :: rest
      end
  end.

(** The code point of one character: one byte [0xxxxxxx], or a first byte
    [110xxxxx], [1110xxxx] or [11110xxx] and one, two or three continuation
    bytes, in the shortest form.  (A [str] may hold surrogates; they are
    encoded like any other code point.) *)
Definition ord (ch : string) : option N :=
  match map N_of_ascii (list_ascii_of_string ch) with
  | [b1] => if b1 <? 0x80 then Some b1 else None
  | [b1; b2] =>
      let c := (b1 - 0xC0) * 0x40 + (b2 - 0x80) in
      if (0xC0 <=? b1) && (b1 <? 0xE0) && trail b2 && (0x80 <=? c)
      then Some c else None
  | [b1; b2; b3] =>
      let c := (b1 - 0xE0) * 0x1000 + (b2 - 0x80) * 0x40 + (b3 - 0x80) in
      if (0xE0 <=? b1) && (b1 <? 0xF0) && trail b2 && trail b3 && (0x800 <=? c)
      then Some c else None
  | [b1; b2; b3; b4] =>
      let c := (b1 - 0xF0) * 0x40000 + (b2 - 0x80) * 0x1000
               + (b3 - 0x80) * 0x40 + (b4 - 0x80) in
      if (0xF0 <=? b1) && (b1 <? 0xF8) && trail b2 && trail b3 && trail b4
         && (0x10000 <=? c) && (c <? 0x110000)
      then Some c else None
  | _ => None
  end%N.

(** A character that is whitespace. *)

Definition space_char (ch : string) : bool :=
  match ord ch with
  | Some c => isspace c
  | None => false
  end.

(** Dropping the leading whitespace characters. *)
Fixpoint lstrip_chars (l : list string) : list string :=
  match l with
  | [] => []
  | ch :: l' => if space_char ch then lstrip_chars l' else l
  end.

Definition rstrip_chars (l : list string) : list string :=
  rev (lstrip_chars (rev l)).

(** ["".join(l)] *)
Definition str_join (l : list string) : string := fold_right String.append "" l.

(** [s.strip()] *)
Definition strip (s : string) : string :=
  str_join (rstrip_chars (lstrip_chars (chars s))).

(** Every character of [s] is whitespace (so is the empty string). *)
Definition all_space (s : string) : bool := forallb space_char (chars s).

(** The UTF-8 encoding of a code point and of a sequence of code points. *)
Definition utf8_char (c : N) : string :=
  (if c <? 0x80 then String (ascii_of_N c) ""
   else if c <? 0x800 then
     String (ascii_of_N (0xC0 + c / 0x40))
       (String (ascii_of_N (0x80 + c mod 0x40)) "")
   else if c <? 0x10000 then
     String (ascii_of_N (0xE0 + c / 0x1000))
       (String (ascii_of_N (0x80 + (c / 0x40) mod 0x40))
          (String (ascii_of_N (0x80 + c mod 0x40)) ""))
   else
     String (ascii_of_N (0xF0 + c / 0x40000))
       (String (ascii_of_N (0x80 + (c / 0x1000) mod 0x40))
          (String (ascii_of_N (0x80 + (c / 0x40) mod 0x40))
             (String (ascii_of_N (0x80 + c mod 0x40)) ""))))%N.

Definition utf8 (l : list N) : string := str_join (map utf8_char l).

(** [str.strip] on the code points themselves. *)
Fixpoint lstrip_points (l : list N) : list N :=
  match l with
  | [] => []
  | c :: l' => if isspace c then lstrip_points l' else l
  end.

Definition strip_points (l : list N) : list N :=
  rev (lstrip_points (rev (lstrip_points l))).

(** A code point of a [str]. *)
Definition code_point (c : N) : Prop := (c < 0x110000)%N.

(** The bytes after the first of a character, and a string that starts at
    the start of a character. *)
Definition continuations (s : string) : bool :=
  forallb continuation (list_ascii_of_string s).

Definition starts_char (s : string) : bool :=
  match s with
  | EmptyString => true
  | String b _ => negb (continuation b)
  end.

(** [str(n)] for the result of [len] and for an [int]. *)
Definition str_nat (n : nat) : string := NilZero.string_of_uint (Nat.to_uint n).
Definition str_int (z : Z) : string := NilZero.string_of_int (Z.to_int z).

(** The newline character and ["\n".join(l)]. *)
Definition nl : string := String (ascii_of_nat 10) EmptyString.
Definition join_lines (l : list string) : string := String.concat nl l.

(** [needle in haystack] for strings. *)
Fixpoint contains (haystack needle : string) : bool :=
  prefix needle haystack ||
  match haystack with
  | EmptyString => false
  | String _ h' => contains h' needle
  end.

(** A raised exception; [message] is what [str(ex)] gives.  Only instances
    of [Exception] are modelled. *)
Record exn : Type := Exception { message : string }.

(** [subprocess.CompletedProcess] with captured text streams. *)
Record CompletedProcess : Type :=
  mkCompleted { returncode : Z; stdout : string; stderr : string }.

(** An argument of [print]. *)
Inductive printable : Type :=
| PStr (s : string)
| PList (l : list string).

End Py.
Import Py.

(** [posixpath.join] on two components, the concrete [os.path.join] of the
    worked examples. *)
Module Posix.

Fixpoint endswith_sep (s : string) : bool :=
  match s with
  | EmptyString => false
  | String c EmptyString => (c =? "/")%char
  | String _ s' => endswith_sep s'
  end.

Definition join (a b : string) : string :=
  if prefix "/" b then b
  else if (a =? "") || endswith_sep a then a +++ b
  else a +++ "/" +++ b.

End Posix.

(** ** The job tuple

    [enqueue_job] builds the tuple
    [(text, img, out_dir, mesh_name, mesh_only, texture_only,
      mesh_and_texture, voxel_mode, voxel_res)]
    and [run_job] receives it as its positional arguments. *)

Module Job.
Record t : Type := mk {
  text : string;
  img : string;
  out_dir : string;
  mesh_name : string;
  mesh_only : bool;
  texture_only : bool;
  mesh_and_texture : bool;
  voxel_mode : bool;
  voxel_res : Z
}.
End Job.

(** ** The application object *)

(** What [preview_label] shows. *)
Inductive Label : Type :=
| LabelText (s : string)
| LabelImage.

Record App : Type := mkApp {
  text_prompt : string;
  image_path : string;
  voxel_mode : bool;
  voxel_res : Z;
  mesh_only : bool;
  texture_only : bool;
  mesh_and_texture : bool;
  output_dir : string;
  config_preset : string;
  processing : bool;
  jobs : list Job.t;            (* queue.Queue: put at the tail, get at the head *)
  job_list : list string;       (* the Listbox rows *)
  preview_mesh_path : option string;
  preview_label : Label
}.

(** The tk variables of the form, indexed by the type of their value. *)
Inductive tkvar : Type -> Type :=
| v_text_prompt : tkvar string
| v_image_path : tkvar string
| v_voxel_mode : tkvar bool
| v_voxel_res : tkvar Z
| v_mesh_only : tkvar bool
| v_texture_only : tkvar bool
| v_mesh_and_texture : tkvar bool
| v_output_dir : tkvar string
| v_config_preset : tkvar string.

Definition var_get {T} (v : tkvar T) (a : App) : T :=
  match v in tkvar T return T with
  | v_text_prompt => text_prompt a
  | v_image_path => image_path a
  | v_voxel_mode => voxel_mode a
  | v_voxel_res => voxel_res a
  | v_mesh_only => mesh_only a
  | v_texture_only => texture_only a
  | v_mesh_and_texture => mesh_and_texture a
  | v_output_dir => output_dir a
  | v_config_preset => config_preset a
  end.

Definition var_set {T} (v : tkvar T) : T -> App -> App :=
  match v in tkvar T return T -> App -> App with
  | v_text_prompt => fun x a =>
      mkApp x (image_path a) (voxel_mode a) (voxel_res a) (mesh_only a)
        (texture_only a) (mesh_and_texture a) (output_dir a) (config_preset a)
        (processing a) (jobs a) (job_list a) (preview_mesh_path a) (preview_label a)
  | v_image_path => fun x a =>
      mkApp (text_prompt a) x (voxel_mode a) (voxel_res a) (mesh_only a)
        (texture_only a) (mesh_and_texture a) (output_dir a) (config_preset a)
        (processing a) (jobs a) (job_list a) (preview_mesh_path a) (preview_label a)
  | v_voxel_mode => fun x a =>
      mkApp (text_prompt a) (image_path a) x (voxel_res a) (mesh_only a)
        (texture_only a) (mesh_and_texture a) (output_dir a) (config_preset a)
        (processing a) (jobs a) (job_list a) (preview_mesh_path a) (preview_label a)
  | v_voxel_res => fun x a =>
      mkApp (text_prompt a) (image_path a) (voxel_mode a) x (mesh_only a)
        (texture_only a) (mesh_and_texture a) (output_dir a) (config_preset a)
        (processing a) (jobs a) (job_list a) (preview_mesh_path a) (preview_label a)
  | v_mesh_only => fun x a =>
      mkApp (text_prompt a) (image_path a) (voxel_mode a) (voxel_res a) x
        (texture_only a) (mesh_and_texture a) (output_dir a) (config_preset a)
        (processing a) (jobs a) (job_list a) (preview_mesh_path a) (preview_label a)
  | v_texture_only => fun x a =>
      mkApp (text_prompt a) (image_path a) (voxel_mode a) (voxel_res a) (mesh_only a)
        x (mesh_and_texture a) (output_dir a) (config_preset a)
        (processing a) (jobs a) (job_list a) (preview_mesh_path a) (preview_label a)
  | v_mesh_and_texture => fun x a =>
      mkApp (text_prompt a) (image_path a) (voxel_mode a) (voxel_res a) (mesh_only a)
        (texture_only a) x (output_dir a) (config_preset a)
        (processing a) (jobs a) (job_list a) (preview_mesh_path a) (preview_label a)
  | v_output_dir => fun x a =>
      mkApp (text_prompt a) (image_path a) (voxel_mode a) (voxel_res a) (mesh_only a)
        (texture_only a) (mesh_and_texture a) x (config_preset a)
        (processing a) (jobs a) (job_list a) (preview_mesh_path a) (preview_label a)
  | v_config_preset => fun x a =>
      mkApp (text_prompt a) (image_path a) (voxel_mode a) (voxel_res a) (mesh_only a)
        (texture_only a) (mesh_and_texture a) (output_dir a) x
        (processing a) (jobs a) (job_list a) (preview_mesh_path a) (preview_label a)
  end.

Definition set_processing (b : bool) (a : App) : App :=
  mkApp (text_prompt a) (image_path a) (voxel_mode a) (voxel_res a) (mesh_only a)
    (texture_only a) (mesh_and_texture a) (output_dir a) (config_preset a)
    b (jobs a) (job_list a) (preview_mesh_path a) (preview_label a).

Definition set_jobs (q : list Job.t) (a : App) : App :=
  mkApp (text_prompt a) (image_path a) (voxel_mode a) (voxel_res a) (mesh_only a)
    (texture_only a) (mesh_and_texture a) (output_dir a) (config_preset a)
    (processing a) q (job_list a) (preview_mesh_path a) (preview_label a).

Definition set_job_list (l : list string) (a : App) : App :=
  mkApp (text_prompt a) (image_path a) (voxel_mode a) (voxel_res a) (mesh_only a)
    (texture_only a) (mesh_and_texture a) (output_dir a) (config_preset a)
    (processing a) (jobs a) l (preview_mesh_path a) (preview_label a).

Definition set_preview_mesh_path (p : option string) (a : App) : App :=
  mkApp (text_prompt a) (image_path a) (voxel_mode a) (voxel_res a) (mesh_only a)
    (texture_only a) (mesh_and_texture a) (output_dir a) (config_preset a)
    (processing a) (jobs a) (job_list a) p (preview_label a).

Definition set_preview_label (l : Label) (a : App) : App :=
  mkApp (text_prompt a) (image_path a) (voxel_mode a) (voxel_res a) (mesh_only a)
    (texture_only a) (mesh_and_texture a) (output_dir a) (config_preset a)
    (processing a) (jobs a) (job_list a) (preview_mesh_path a) l.

(** [l] without its element [i]; [l] itself when [i] is out of range
    (this is what [Listbox.delete(i)] does to the rows). *)
Fixpoint remove_nth {A} (i : nat) (l : list A) : list A :=
  match l, i with
  | [], _ => []
  | _ :: l', O => l'
  | x :: l', S i' => x :: remove_nth i' l'
  end.

(** ** Effects and programs *)

Inductive box : Type := Info | Warning | Error.

(** One effect of the program, indexed by the type of its result. *)
Inductive eff : Type -> Type :=
| VarGet {T} (v : tkvar T) : eff T                  (* self.<var>.get() *)
| GetProcessing : eff bool                          (* self.processing *)
| SetProcessing (b : bool) : eff unit               (* self.processing = b *)
| JobsEmpty : eff bool                              (* self.jobs.empty() *)
| JobsPut (j : Job.t) : eff unit                    (* self.jobs.put(j) *)
| JobsGet : eff Job.t                               (* self.jobs.get(), blocking *)
| JobListSize : eff nat                             (* self.job_list.size() *)
| JobListInsertEnd (row : string) : eff unit        (* self.job_list.insert(tk.END, row) *)
| JobListDelete (i : nat) : eff unit                (* self.job_list.delete(i) *)
| ThreadStart (j : Job.t) : eff unit                (* Thread(target=self.run_job, args=j).start() *)
| After (ms : nat) : eff unit                       (* self.after(ms, self.poll_queue) *)
| ListDir (path : string) : eff (exn + nat)         (* len(os.listdir(path)) *)
| Print (items : list printable) : eff unit         (* print( *items ) *)
| SubprocessRun (args : list string) : eff (exn + CompletedProcess)
| ImportObj2vox : eff bool                          (* from obj2vox import obj2vox *)
| Obj2vox (obj_path vox_path : string) (grid : Z) : eff (option exn)
| SetPreviewMeshPath (p : string) : eff unit        (* self.preview_mesh_path = p *)
| RenderPreview (mesh_path : string) : eff (exn + bool)
| PreviewLabelConfig (l : Label) : eff unit         (* self.preview_label.config(...) *)
| MessageBox (kind : box) (title msg : string) : eff unit.

(** What the environment answers to the external calls. *)
Record Oracle : Type := mkOracle {
  listdir_result : exn + nat;
  subprocess_result : exn + CompletedProcess;
  obj2vox_importable : bool;
  obj2vox_result : option exn;
  render_result : exn + bool
}.

(** Performing one effect on the application object.  [None]: the effect
    blocks ([Queue.get] on an empty queue). *)
Definition perform {R} (e : eff R) (o : Oracle) (a : App) : option (App * R) :=
  match e in eff R return option (App * R) with
  | VarGet v => Some (a, var_get v a)
  | GetProcessing => Some (a, processing a)
  | SetProcessing b => Some (set_processing b a, tt)
  | JobsEmpty => Some (a, match jobs a with [] => true | _ :: _ => false end)
  | JobsPut j => Some (set_jobs (jobs a ++ [j]) a, tt)
  | JobsGet => match jobs a with
               | [] => None
               | j :: q => Some (set_jobs q a, j)
               end
  | JobListSize => Some (a, length (job_list a))
  | JobListInsertEnd row => Some (set_job_list (job_list a ++ [row]) a, tt)
  | JobListDelete i => Some (set_job_list (remove_nth i (job_list a)) a, tt)
  | ThreadStart _ => Some (a, tt)
  | After _ => Some (a, tt)
  | ListDir _ => Some (a, listdir_result o)
  | Print _ => Some (a, tt)
  | SubprocessRun _ => Some (a, subprocess_result o)
  | ImportObj2vox => Some (a, obj2vox_importable o)
  | Obj2vox _ _ _ => Some (a, obj2vox_result o)
  | SetPreviewMeshPath p => Some (set_preview_mesh_path (Some p) a, tt)
  | RenderPreview _ => Some (a, render_result o)
  | PreviewLabelConfig l => Some (set_preview_label l a, tt)
  | MessageBox _ _ _ => Some (a, tt)
  end.

(** Programs: a result, or an effect and what to do with its result. *)
Inductive prog (A : Type) : Type :=
| Ret (a : A)
| Vis {R} (e : eff R) (k : R -> prog A).
Arguments Ret {A} a.
Arguments Vis {A R} e k.

Fixpoint pbind {A B} (p : prog A) (f : A -> prog B) : prog B :=
  match p with
  | Ret a => f a
  | Vis e k => Vis e (fun r => pbind (k r) f)
  end.

(** Python code: a program that returns a value or raises. *)
Definition M (A : Type) : Type := prog (exn + A).

Definition ret {A} (a : A) : M A := Ret (inr a).
Definition raise {A} (e : exn) : M A := Ret (inl e).
Definition bind {A B} (m : M A) (f : A -> M B) : M B :=
  pbind m (fun r => match r with inl e => Ret (inl e) | inr a => f a end).

(** An effect that cannot raise, and one whose result may be an exception. *)
Definition call {R} (e : eff R) : M R := Vis e (fun r => Ret (inr r)).
Definition call_raising {R} (e : eff (exn + R)) : M R := Vis e (fun r => Ret r).

(** [try: body  except Exception as ex: handler ex] *)
Definition try_except {A} (body : M A) (handler : exn -> M A) : M A :=
  pbind body (fun r => match r with inl ex => handler ex | inr a => Ret (inr a) end).

(** [try: body  finally: fin] *)
Definition try_finally {A} (body : M A) (fin : M unit) : M A :=
  pbind body (fun r =>
    pbind fin (fun r' => match r' with inl ex => Ret (inl ex) | inr _ => Ret r end)).

Notation "x <- c1 ;; c2" := (bind c1 (fun x => c2))
  (at level 61, c1 at next level, right associativity).
Notation "' pat <- c1 ;; c2" := (bind c1 (fun x => match x with pat => c2 end))
  (at level 61, pat pattern, c1 at next level, right associativity).
Notation "c1 ;; c2" := (bind c1 (fun _ => c2))
  (at level 61, right associativity).

(** ** The program *)

(** What the platform provides: [os.path.join], [sys.executable] and the
    working directory [os.getcwd()], which the program never changes. *)
Class Platform : Type := {
  os_path_join : string -> string -> string;
  getcwd : string;
  sys_executable : string
}.

Section Program.

Context {platform : Platform}.

(** The module constant of line 20. *)
Definition DREAMGAUSSIAN_SCRIPT : string := os_path_join getcwd "run_dreamgaussian.py".

(** [run_dreamgaussian], line 31. *)
Definition config_dir : string := os_path_join getcwd "configs".

(** [run_dreamgaussian], the config selection (lines 31-41). *)
Definition select_config (config_preset text_prompt image_path : string) : string :=
  if truthy config_preset && negb (config_preset =? "auto") then
    os_path_join config_dir config_preset
  else if truthy text_prompt && truthy image_path then
    os_path_join config_dir "imagedream.yaml"
  else if truthy text_prompt then
    os_path_join config_dir "text.yaml"
  else
    os_path_join config_dir "image.yaml".

(** [run_dreamgaussian], the command line (lines 43-53). *)
Definition dreamgaussian_args
    (text_prompt image_path out_dir mesh_name : string) (hd : bool)
    (config_preset : string) : list string :=
  let config := select_config config_preset text_prompt image_path in
  let args :=
    [ sys_executable; DREAMGAUSSIAN_SCRIPT;
      "--config"; config;
      "--output_dir"; out_dir;
      "--name"; mesh_name;
      if hd then "--hd" else "--low" ] in
  let args := if truthy text_prompt then args ++ ["--text"; text_prompt] else args in
  let args := if truthy image_path then args ++ ["--image"; image_path] else args in
  args.

Definition run_dreamgaussian
    (text_prompt image_path out_dir mesh_name : string) (hd : bool)
    (config_preset : string) : M (string * string) :=
  let args :=
    dreamgaussian_args text_prompt image_path out_dir mesh_name hd config_preset in
  call (Print [PStr "Running DreamGaussian with:"; PList args]) ;;
  result <- call_raising (SubprocessRun args) ;;
  call (Print [PStr (stdout result)]) ;;
  if negb (returncode result =? 0)%Z then
    call (Print [PStr (stderr result)]) ;;
    raise (Exception "DreamGaussian failed!")
  else
    ret (os_path_join out_dir (mesh_name +++ ".obj"),
         os_path_join out_dir (mesh_name +++ ".png")).

Definition obj_to_vox (obj_path vox_path : string) (resolution : Z) : M string :=
  importable <- call ImportObj2vox ;;
  if negb importable then
    raise (Exception "You must install 'obj2vox' package (pip install obj2vox)!")
  else
    call (Print [PStr ("Converting " +++ obj_path +++ " to " +++ vox_path
                       +++ " at resolution " +++ str_int resolution +++ "...")]) ;;
    r <- call (Obj2vox obj_path vox_path resolution) ;;
    match r with
    | Some ex => raise ex
    | None => ret vox_path
    end.

(** [show_preview]: whatever goes wrong while rendering ends up as the
    label's text. *)
Definition show_preview (mesh_path : string) : M unit :=
  try_except
    (img <- call_raising (RenderPreview mesh_path) ;;
     if (img : bool) then call (PreviewLabelConfig LabelImage)
     else call (PreviewLabelConfig (LabelText "3D preview not available.")))
    (fun e => call (PreviewLabelConfig (LabelText ("Preview error: " +++ message e)))).

(** [run_job], lines 226-239: the pipeline once the preset has been read. *)
Definition pipeline (j : Job.t) (config_preset : string) : M unit :=
  '(obj_path, tex_path) <-
    run_dreamgaussian (Job.text j) (Job.img j) (Job.out_dir j) (Job.mesh_name j)
      true config_preset ;;
  let out_paths := [obj_path] in
  let out_paths :=
    if Job.texture_only j || Job.mesh_and_texture j
    then out_paths ++ [tex_path] else out_paths in
  out_paths <-
    (if Job.voxel_mode j then
       let vox_path :=
         os_path_join (Job.out_dir j)
           (Job.mesh_name j +++ "_" +++ str_int (Job.voxel_res j) +++ ".vox") in
       obj_to_vox obj_path vox_path (Job.voxel_res j) ;;
       ret (out_paths ++ [vox_path])
     else ret out_paths) ;;
  call (SetPreviewMeshPath obj_path) ;;
  show_preview obj_path ;;
  call (MessageBox Info "Success"
          ("Generation complete!" +++ nl +++ "Files:" +++ nl +++ join_lines out_paths)).

(** The [try] block of [run_job]. *)
Definition run_job_body (j : Job.t) : M unit :=
  (* hasattr(self, 'config_preset') holds once setup_ui has run *)
  config_preset <- call (VarGet v_config_preset) ;;
  pipeline j config_preset.

(** [try: body  except Exception as ex: showerror(...)
     finally: self.processing = False] *)
Definition job_boundary (body : M unit) : M unit :=
  try_finally
    (try_except body
       (fun ex => call (MessageBox Error "Error" ("Job failed: " +++ message ex))))
    (call (SetProcessing false)).

Definition run_job (j : Job.t) : M unit := job_boundary (run_job_body j).

Definition process_next_job : M unit :=
  empty <- call JobsEmpty ;;
  if (empty : bool) then ret tt
  else
    call (SetProcessing true) ;;
    job <- call JobsGet ;;
    call (JobListDelete 0) ;;
    call (ThreadStart job).

Definition enqueue_job : M unit :=
  text <- call (VarGet v_text_prompt) ;;
  let text := strip text in
  img <- call (VarGet v_image_path) ;;
  let img := strip img in
  if negb (truthy text) && negb (truthy img) then
    call (MessageBox Warning "No prompt" "Provide text and/or image prompt.")
  else
    out_dir <- call (VarGet v_output_dir) ;;
    n <- call_raising (ListDir out_dir) ;;
    let mesh_name := "dreamasset_" +++ str_nat n in
    mesh_only <- call (VarGet v_mesh_only) ;;
    texture_only <- call (VarGet v_texture_only) ;;
    mesh_and_texture <- call (VarGet v_mesh_and_texture) ;;
    voxel_mode <- call (VarGet v_voxel_mode) ;;
    voxel_res <- call (VarGet v_voxel_res) ;;
    let job :=
      Job.mk text img out_dir mesh_name mesh_only texture_only mesh_and_texture
        voxel_mode voxel_res in
    call (JobsPut job) ;;
    size <- call JobListSize ;;
    call (JobListInsertEnd ("Job " +++ str_nat (size + 1) +++ ": " +++ mesh_name)) ;;
    busy <- call GetProcessing ;;
    if negb busy then process_next_job else ret tt.

Definition poll_queue : M unit :=
  busy <- call GetProcessing ;;
  (if negb busy then
     empty <- call JobsEmpty ;;
     if negb empty then process_next_job else ret tt
   else ret tt) ;;
  call (After 200).

(** [__init__]: the attributes before the first event. *)
Definition init_app : App :=
  {| text_prompt := ""; image_path := "";
     voxel_mode := true; voxel_res := 256;
     mesh_only := true; texture_only := false; mesh_and_texture := true;
     output_dir := getcwd; config_preset := "auto";
     processing := false; jobs := []; job_list := [];
     preview_mesh_path := None; preview_label := LabelText "No preview yet." |}.

(** ** Threads and the interleaving of their effects *)

(** A worker thread: the job it was started with and what is left of
    [run_job]. *)
Record Thread : Type := mkThread { th_job : Job.t; th_code : M unit }.

(** An effect that has been performed. *)
Inductive action : Type :=
| Act {R} (e : eff R).

Record Sys : Type := mkSys {
  app : App;
  main : M unit;              (* what is left of the running callback *)
  threads : list Thread;      (* started workers that have not finished *)
  log : list action           (* every effect performed, oldest first *)
}.

Definition idle {A} (p : prog A) : bool :=
  match p with Ret _ => true | Vis _ _ => false end.

Definition spawned {R} (e : eff R) : list Thread :=
  match e with
  | ThreadStart j => [mkThread j (run_job j)]
  | _ => []
  end.

(** One effect of a program: the new application object, the action, the
    threads it starts and the rest of the program.  [None] when the program
    has finished or blocks. *)
Definition step_code {A} (o : Oracle) (p : prog A) (a : App)
  : option (App * action * list Thread * prog A) :=
  match p with
  | Ret _ => None
  | Vis e k =>
      match perform e o a with
      | None => None
      | Some (a', r) => Some (a', Act e, spawned e, k r)
      end
  end.

Fixpoint set_nth {A} (i : nat) (x : A) (l : list A) : list A :=
  match l, i with
  | [], _ => []
  | _ :: l', O => x :: l'
  | y :: l', S i' => y :: set_nth i' x l'
  end.

(** A worker whose code has returned leaves the list of live threads. *)
Definition settle (i : nat) (t : Thread) (l : list Thread) : list Thread :=
  if idle (th_code t) then remove_nth i l else set_nth i t l.

(** What can happen next.  The Tk main loop runs one callback at a time:
    an edit of the form, a click on Generate and the poll timer are taken
    only between callbacks. *)
Inductive Input : Type :=
| Edit {T} (v : tkvar T) (x : T)
| ClickGenerate
| Timer
| MainStep (o : Oracle)
| WorkerStep (i : nat) (o : Oracle).

Definition handle (s : Sys) (inp : Input) : Sys :=
  match inp with
  | Edit v x =>
      if idle (main s) then mkSys (var_set v x (app s)) (main s) (threads s) (log s)
      else s
  | ClickGenerate =>
      if idle (main s) then mkSys (app s) enqueue_job (threads s) (log s) else s
  | Timer =>
      if idle (main s) then mkSys (app s) poll_queue (threads s) (log s) else s
  | MainStep o =>
      match step_code o (main s) (app s) with
      | None => s
      | Some (a', act, new, k) => mkSys a' k (threads s ++ new) (log s ++ [act])
      end
  | WorkerStep i o =>
      match nth_error (threads s) i with
      | None => s
      | Some t =>
          match step_code o (th_code t) (app s) with
          | None => s
          | Some (a', act, new, k) =>
              mkSys a' (main s)
                (settle i (mkThread (th_job t) k) (threads s) ++ new)
                (log s ++ [act])
          end
      end
  end.

Definition run (s : Sys) (inputs : list Input) : Sys := fold_left handle inputs s.

Definition init : Sys := mkSys init_app (ret tt) [] [].

(** Running one program to its end without interleaving. *)
Fixpoint exec {A} (o : Oracle) (p : prog A) (a : App)
  : option (App * list action * A) :=
  match p with
  | Ret x => Some (a, [], x)
  | Vis e k =>
      match perform e o a with
      | None => None
      | Some (a', r) =>
          match exec o (k r) a' with
          | None => None
          | Some (a'', acts, x) => Some (a'', Act e :: acts, x)
          end
      end
  end.

(** A schedule without user input: the poll timer and steps of the
    threads.  What the environment answers to an effect is [tools n], where
    [n] is the number of effects performed before it. *)
Fixpoint follows (tools : nat -> Oracle) (s : Sys) (inputs : list Input) : Prop :=
  match inputs with
  | [] => True
  | inp :: rest =>
      match inp with
      | Timer => True
      | MainStep o | WorkerStep _ o => o = tools (length (log s))
      | _ => False
      end /\ follows tools (handle s inp) rest
  end.

(** ** Reading the log *)

Definition subprocess_calls (l : list action) : list (list string) :=
  flat_map (fun '(Act e) =>
    match e with SubprocessRun args => [args] | _ => [] end) l.

(** Calls into the conversion routine: the import and the library call of
    [obj_to_vox]. *)
Definition is_conversion (act : action) : bool :=
  let '(Act e) := act in
  match e with ImportObj2vox | Obj2vox _ _ _ => true | _ => false end.

Definition dialogs (l : list action) : list (box * string * string) :=
  flat_map (fun '(Act e) =>
    match e with MessageBox kind title msg => [(kind, title, msg)] | _ => [] end) l.

Definition printed (l : list action) : list (list printable) :=
  flat_map (fun '(Act e) =>
    match e with Print items => [items] | _ => [] end) l.

Definition submitted (l : list action) : list Job.t :=
  flat_map (fun '(Act e) =>
    match e with JobsPut j => [j] | _ => [] end) l.

Definition started (l : list action) : list Job.t :=
  flat_map (fun '(Act e) =>
    match e with ThreadStart j => [j] | _ => [] end) l.

(** ** Shapes of programs

    The invariants of the dispatcher are stated on what is left of a
    program, by recursion on its tree. *)

(** Effects that touch neither the queue, the running marker nor the
    threads. *)
Definition quiet {R} (e : eff R) : bool :=
  match e with
  | ThreadStart _ | SetProcessing _ | JobsGet | JobsPut _ => false
  | _ => true
  end.

(** Every effect on every path through the program passes [ok]. *)
Fixpoint only {A} (ok : forall R, eff R -> bool) (p : prog A) : Prop :=
  match p with
  | Ret _ => True
  | Vis e k => ok _ e = true /\ forall r, only ok (k r)
  end.

Definition quiet_prog {A} (p : prog A) : Prop := only (@quiet) p.

(** No path through the program calls into the conversion routine. *)
Definition conversion_free {A} (p : prog A) : Prop :=
  only (fun R e => negb (is_conversion (Act e))) p.

(** What is left of a worker: quiet effects, then [self.processing = False]
    as the last effect. *)
Fixpoint worker {A} (p : prog A) : Prop :=
  match p with
  | Ret _ => False
  | Vis e k =>
      match e in eff R return (R -> prog A) -> Prop with
      | SetProcessing false => fun k => idle (k tt) = true
      | e' => fun k => quiet e' = true /\ forall r, worker (k r)
      end k
  end.

(** Where the main thread stands in a dispatch:
    - [Guarded]: it has not seen the marker clear;
    - [Idle]: it has read [processing = False];
    - [Ready]: and has seen the queue non-empty;
    - [Claimed]: it has set [processing = True];
    - [Holding j]: it has taken [j] from the queue and not started it yet. *)
Inductive phase : Type :=
| Guarded
| Idle
| Ready
| Claimed
| Holding (j : Job.t).

(** The code left to the main thread fits the phase. *)
Fixpoint safe {A} (ph : phase) (p : prog A) {struct p} : Prop :=
  match p with
  | Ret _ =>
      match ph with
      | Guarded | Idle | Ready => True
      | Claimed | Holding _ => False
      end
  | Vis e k =>
      match e in eff R return (R -> prog A) -> Prop with
      | GetProcessing => fun k =>
          match ph with
          | Guarded => safe Guarded (k true) /\ safe Idle (k false)
          | _ => forall r, safe ph (k r)
          end
      | JobsEmpty => fun k =>
          match ph with
          | Idle => safe Idle (k true) /\ safe Ready (k false)
          | _ => forall r, safe ph (k r)
          end
      | SetProcessing b => fun k =>
          match ph, b with
          | Ready, true => safe Claimed (k tt)
          | _, _ => False
          end
      | JobsGet => fun k =>
          match ph with
          | Claimed => forall j, safe (Holding j) (k j)
          | _ => False
          end
      | ThreadStart j => fun k =>
          match ph with
          | Holding j' => j' = j /\ safe Guarded (k tt)
          | _ => False
          end
      | _ => fun k => forall r, safe ph (k r)
      end k
  end.

Definition held (ph : phase) : list Job.t :=
  match ph with Holding j => [j] | _ => [] end.

(** What the phase knows about the marker, the queue and the workers. *)
Definition cond (ph : phase) (a : App) (ts : list Thread) : Prop :=
  match ph with
  | Guarded => (length ts <= 1)%nat /\ (processing a = true <-> ts <> [])
  | Idle => ts = [] /\ processing a = false
  | Ready => ts = [] /\ processing a = false /\ jobs a <> []
  | Claimed => ts = [] /\ processing a = true /\ jobs a <> []
  | Holding _ => ts = [] /\ processing a = true
  end.

(** The invariant of the dispatcher. *)
Definition inv (s : Sys) : Prop :=
  Forall (fun t => worker (th_code t)) (threads s) /\
  (exists ph, safe ph (main s) /\ cond ph (app s) (threads s) /\
     submitted (log s) = started (log s) ++ held ph ++ jobs (app s)) /\
  (forall t, In t (threads s) -> exists before, started (log s) = before ++ [th_job t]).

Definition put_of {R} (e : eff R) : list Job.t :=
  match e with JobsPut j => [j] | _ => [] end.

Definition start_of {R} (e : eff R) : list Job.t :=
  match e with ThreadStart j => [j] | _ => [] end.

(** ** The remaining callbacks *)

(** The presets the form offers ([setup_ui], line 153). *)
Definition config_options : list string :=
  ["auto"; "image.yaml"; "image_sai.yaml"; "imagedream.yaml"; "text.yaml"; "text_mv.yaml"].

(** [browse_image] and [browse_output]: [answer] is what the file dialog
    returns, empty when the dialog is cancelled. *)
Definition browse_image (answer : string) (a : App) : App :=
  if truthy answer then var_set v_image_path answer a else a.

Definition browse_output (answer : string) (a : App) : App :=
  if truthy answer then var_set v_output_dir answer a else a.

(** What [open_preview_window] does: the warning dialog, or the call of
    [show_mesh_in_window]. *)
Inductive viewer_request : Type :=
| NoMeshWarning (title msg : string)
| ShowMeshInWindow (mesh_path : string).

Definition open_preview_window (a : App) : viewer_request :=
  match preview_mesh_path a with
  | Some mesh_path =>
      if truthy mesh_path then ShowMeshInWindow mesh_path
      else NoMeshWarning "No mesh" "No mesh generated yet."
  | None => NoMeshWarning "No mesh" "No mesh generated yet."
  end.

(** The label [show_preview] leaves, by what the rendering answers. *)
Definition preview_label_after (o : Oracle) : Label :=
  match render_result o with
  | inl ex => LabelText ("Preview error: " +++ message ex)
  | inr true => LabelImage
  | inr false => LabelText "3D preview not available."
  end.

(** [<out_dir>/<mesh_name>.obj], the mesh of a job. *)
Definition mesh_path_of (j : Job.t) : string :=
  os_path_join (Job.out_dir j) (Job.mesh_name j +++ ".obj").

(** The job has a prompt. *)
Definition valid_job (j : Job.t) : bool := truthy (Job.text j) || truthy (Job.img j).

(** ** What the threads may do *)

(** Every effect on every path through the program satisfies [P]. *)
Fixpoint always {A} (P : forall R, eff R -> Prop) (p : prog A) : Prop :=
  match p with
  | Ret _ => True
  | Vis e k => P _ e /\ forall r, always P (k r)
  end.

(** The command line of a job under a preset. *)
Definition job_command (j : Job.t) (preset : string) : list string :=
  dreamgaussian_args (Job.text j) (Job.img j) (Job.out_dir j) (Job.mesh_name j)
    true preset.

(** A callback of the main thread puts only jobs with a prompt in the
    queue, and calls no tool and sets no preview. *)
Definition main_may {R} (e : eff R) : Prop :=
  match e with
  | JobsPut j => valid_job j = true
  | SubprocessRun _ | ImportObj2vox | Obj2vox _ _ _ | SetPreviewMeshPath _ => False
  | _ => True
  end.

(** The worker of job [j] calls the tool on a command line of [j], sets the
    preview to the mesh of [j], and leaves the queue, its listbox and the
    threads alone. *)
Definition worker_may (j : Job.t) {R} (e : eff R) : Prop :=
  match e with
  | SubprocessRun args => exists preset, args = job_command j preset
  | SetPreviewMeshPath p => p = mesh_path_of j
  | JobsPut _ | JobsGet | JobListInsertEnd _ | JobListDelete _ | ThreadStart _ => False
  | _ => True
  end.

(** What holds of the jobs, the command lines and the preview at any time. *)
Definition inv_io (s : Sys) : Prop :=
  always (@main_may) (main s) /\
  Forall (fun t => always (@worker_may (th_job t)) (th_code t)) (threads s) /\
  Forall (fun j => valid_job j = true) (submitted (log s)) /\
  Forall (fun args => exists j preset, In j (started (log s)) /\ args = job_command j preset)
    (subprocess_calls (log s)) /\
  (preview_mesh_path (app s) = None \/
   exists j, In j (started (log s)) /\ preview_mesh_path (app s) = Some (mesh_path_of j)).

(** ** The listbox and the queue *)

(** The row names the job. *)
Definition row_names (row : string) (j : Job.t) : Prop :=
  exists n, row = "Job " +++ str_nat n +++ ": " +++ Job.mesh_name j.

Definition rows_match (rows : list string) (q : list Job.t) : Prop :=
  Forall2 row_names rows q.

(** Where a callback stands between the queue and the listbox: in step;
    a job put whose row is not yet inserted; a job taken whose row is not
    yet deleted. *)
Inductive listing : Type :=
| InStep
| OwesRow (j : Job.t)
| OwesDelete.

Fixpoint in_step {A} (m : listing) (p : prog A) {struct p} : Prop :=
  match p with
  | Ret _ => match m with InStep => True | _ => False end
  | Vis e k =>
      match e in eff R return (R -> prog A) -> Prop with
      | JobsPut j => fun k =>
          match m with
          | InStep => forall r, in_step (OwesRow j) (k r)
          | _ => False
          end
      | JobListInsertEnd row => fun k =>
          match m with
          | OwesRow j => row_names row j /\ forall r, in_step InStep (k r)
          | _ => False
          end
      | JobsGet => fun k =>
          match m with
          | InStep => forall r, in_step OwesDelete (k r)
          | _ => False
          end
      | JobListDelete i => fun k =>
          match m with
          | OwesDelete => i = 0%nat /\ forall r, in_step InStep (k r)
          | _ => False
          end
      | _ => fun k => forall r, in_step m (k r)
      end k
  end.

Definition rows_cond (m : listing) (rows : list string) (q : list Job.t) : Prop :=
  match m with
  | InStep => rows_match rows q
  | OwesRow j => exists q0, q = q0 ++ [j] /\ rows_match rows q0
  | OwesDelete => exists row rows0, rows = row :: rows0 /\ rows_match rows0 q
  end.

Definition inv_rows (s : Sys) : Prop :=
  exists m, in_step m (main s) /\ rows_cond m (job_list (app s)) (jobs (app s)).

End Program.

(** ** A concrete platform and concrete answers, for the worked examples *)

Module Demo.

Definition posix : Platform :=
  {| os_path_join := Posix.join;
     getcwd := "/work";
     sys_executable := "/usr/bin/python3" |}.

(** The tool exits with status 0 and everything else goes through. *)
Definition tool_ok : Oracle :=
  {| listdir_result := inr 3%nat;
     subprocess_result := inr (mkCompleted 0 "done" "");
     obj2vox_importable := true;
     obj2vox_result := None;
     render_result := inr true |}.

(** The tool exits with status 1 and an error on stderr. *)
Definition tool_fails : Oracle :=
  {| listdir_result := inr 3%nat;
     subprocess_result := inr (mkCompleted 1 "" "CUDA out of memory");
     obj2vox_importable := true;
     obj2vox_result := None;
     render_result := inr true |}.

Definition chair : Job.t :=
  Job.mk "a red chair" "" "/work" "dreamasset_3" true false true false 256.

Definition cat : Job.t :=
  Job.mk "" "/tmp/cat.png" "/work" "dreamasset_3" true false true true 256.

(** Job A is submitted and started; job B is submitted with the preset
    [text.yaml] while A runs. *)
Definition submit_two : list Input :=
  [Edit v_text_prompt "a red chair"; ClickGenerate]
  ++ repeat (MainStep tool_ok) 18
  ++ [Edit v_image_path "/tmp/cat.png"; Edit v_config_preset "text.yaml"; ClickGenerate]
  ++ repeat (MainStep tool_ok) 13.

(** The user then selects [auto]; A runs to its end, the poll starts B, and
    B calls the tool. *)
Definition then_run_both : list Input :=
  [Edit v_config_preset "auto"]
  ++ repeat (WorkerStep 0 tool_ok) 12
  ++ [Timer]
  ++ repeat (MainStep tool_ok) 7
  ++ repeat (WorkerStep 0 tool_ok) 3.

(** The form with whitespace in both prompts: IDEOGRAPHIC SPACE, SPACE and
    NBSP as the text, TAB and EM SPACE as the image path. *)
Definition blank : App :=
  var_set v_text_prompt (utf8 [0x3000; 0x20; 0xA0]%N)
    (var_set v_image_path (utf8 [0x09; 0x2003]%N) (@init_app posix)).

(** The form with a padded text prompt: SPACE and IDEOGRAPHIC SPACE before,
    THIN SPACE and SPACE after. *)
Definition padded : App :=
  var_set v_text_prompt
    (utf8 [0x20; 0x3000]%N +++ "a red chair" +++ utf8 [0x2009; 0x20]%N)
    (@init_app posix).

(** The code points of a word that ends in A WITH GRAVE, whose encoding
    ends in the byte [0xA0]; and the form with that word between EM SPACE
    and IDEOGRAPHIC SPACE. *)
Definition voila : list N := [0x76; 0x6F; 0x69; 0x6C; 0xE0]%N.

Definition accented : App :=
  var_set v_text_prompt (utf8 ([0x2003]%N ++ voila ++ [0x3000]%N)) (@init_app posix).

(** [obj2vox] is not installed; the converter raises; the interpreter cannot
    be started; the output directory does not exist. *)
Definition no_converter : Oracle :=
  {| listdir_result := inr 3%nat;
     subprocess_result := inr (mkCompleted 0 "done" "");
     obj2vox_importable := false;
     obj2vox_result := None;
     render_result := inr true |}.

Definition converter_raises : Oracle :=
  {| listdir_result := inr 3%nat;
     subprocess_result := inr (mkCompleted 0 "done" "");
     obj2vox_importable := true;
     obj2vox_result := Some (Exception "empty mesh");
     render_result := inr true |}.

Definition no_interpreter : Oracle :=
  {| listdir_result := inr 3%nat;
     subprocess_result := inl (Exception "[Errno 2] No such file or directory");
     obj2vox_importable := true;
     obj2vox_result := None;
     render_result := inr true |}.

Definition no_directory : Oracle :=
  {| listdir_result := inl (Exception "[Errno 2] No such file or directory: '/gone'");
     subprocess_result := inr (mkCompleted 0 "done" "");
     obj2vox_importable := true;
     obj2vox_result := None;
     render_result := inr true |}.

End Demo.

(** * Properties *)

Section Properties.

Context {platform : Platform}.

(** ** The worker's code *)

Section Only.

Variable ok : forall R, eff R -> bool.

Lemma only_pbind {A B} (p : prog A) (f : A -> prog B) :
  only ok p -> (forall a, only ok (f a)) -> only ok (pbind p f).
Proof.
  induction p as [a | R e k IH]; cbn; intros Hp Hf; [apply Hf |].
  destruct Hp as [He Hk]. split; [exact He |]. intros r. apply IH; auto.
Qed.

Lemma only_bind {A B} (m : M A) (f : A -> M B) :
  only ok m -> (forall a, only ok (f a)) -> only ok (bind m f).
Proof.
  intros Hm Hf. apply only_pbind; [exact Hm |]. intros [ex | a]; cbn; auto.
Qed.

Lemma only_try_except {A} (body : M A) (handler : exn -> M A) :
  only ok body -> (forall ex, only ok (handler ex)) ->
  only ok (try_except body handler).
Proof.
  intros Hb Hh. apply only_pbind; [exact Hb |]. intros [ex | a]; cbn; auto.
Qed.

Lemma only_try_finally {A} (body : M A) (fin : M unit) :
  only ok body -> only ok fin -> only ok (try_finally body fin).
Proof.
  intros Hb Hf. apply only_pbind; [exact Hb |]. intros r.
  apply only_pbind; [exact Hf |]. intros [ex | u]; exact I.
Qed.

Lemma only_call {R} (e : eff R) : ok _ e = true -> only ok (call e).
Proof. intros He. cbn. auto. Qed.

Lemma only_call_raising {R} (e : eff (exn + R)) :
  ok _ e = true -> only ok (call_raising e).
Proof. intros He. cbn. auto. Qed.

Lemma only_ret {A} (a : A) : only ok (ret a).
Proof. exact I. Qed.

Lemma only_raise {A} (ex : exn) : only ok (@raise A ex).
Proof. exact I. Qed.

End Only.

Create HintDb shape.
#[local] Hint Resolve only_call only_call_raising only_ret only_raise : shape.

(** Walks a program built from [bind], [try_except], [if] and [match]. *)
Ltac shape_walk :=
  repeat first
    [ apply only_bind; [| intros ? ]
    | apply only_try_except; [| intros ? ]
    | apply only_try_finally
    | progress auto with shape
    | match goal with
      | |- only _ (if ?c then _ else _) => destruct c
      | |- only _ (match ?x with Some _ => _ | None => _ end) => destruct x
      | |- only _ (match ?x with (_, _) => _ end) => destruct x
      end ].

Lemma quiet_run_dreamgaussian text_prompt image_path out_dir mesh_name hd preset :
  quiet_prog (run_dreamgaussian text_prompt image_path out_dir mesh_name hd preset).
Proof. unfold quiet_prog, run_dreamgaussian. shape_walk. Qed.

Lemma quiet_obj_to_vox obj_path vox_path resolution :
  quiet_prog (obj_to_vox obj_path vox_path resolution).
Proof. unfold quiet_prog, obj_to_vox. shape_walk. Qed.

Lemma quiet_show_preview mesh_path : quiet_prog (show_preview mesh_path).
Proof. unfold quiet_prog, show_preview. shape_walk. Qed.

Lemma quiet_run_job_body j : quiet_prog (run_job_body j).
Proof.
  pose proof quiet_run_dreamgaussian. pose proof quiet_obj_to_vox.
  pose proof quiet_show_preview.
  unfold quiet_prog in *. unfold run_job_body, pipeline. shape_walk.
Qed.

(** [try: ... finally: self.processing = False] around quiet code is a
    worker. *)
Lemma worker_try_finally {A} (body : M A) :
  quiet_prog body -> worker (try_finally body (call (SetProcessing false))).
Proof.
  unfold quiet_prog, try_finally.
  induction body as [a | R e k IH]; cbn; intros Hq; [reflexivity |].
  destruct Hq as [He Hk].
  destruct e; try discriminate He; cbn; split; auto.
Qed.

Lemma worker_run_job j : worker (run_job j).
Proof.
  unfold run_job, job_boundary.
  apply worker_try_finally, only_try_except; [apply quiet_run_job_body |].
  intros ex. auto with shape.
Qed.

Lemma worker_not_idle {A} (p : prog A) : worker p -> idle p = false.
Proof. destruct p; cbn; [contradiction | reflexivity]. Qed.

(** ** The dispatcher's invariant *)

Lemma submitted_snoc l {R} (e : eff R) :
  submitted (l ++ [Act e]) = submitted l ++ put_of e.
Proof.
  unfold submitted. rewrite flat_map_app. cbn. rewrite app_nil_r.
  destruct e; reflexivity.
Qed.

Lemma started_snoc l {R} (e : eff R) :
  started (l ++ [Act e]) = started l ++ start_of e.
Proof.
  unfold started. rewrite flat_map_app. cbn. rewrite app_nil_r.
  destruct e; reflexivity.
Qed.

Lemma processing_var_set {T} (v : tkvar T) x a :
  processing (var_set v x a) = processing a.
Proof. destruct v; reflexivity. Qed.

Lemma jobs_var_set {T} (v : tkvar T) x a : jobs (var_set v x a) = jobs a.
Proof. destruct v; reflexivity. Qed.

(** One effect of the main thread: the code left fits a next phase, whose
    knowledge holds in the new state; a job that leaves the queue is held,
    and a held job is the one started; a thread is started only when no
    worker is alive. *)
Lemma main_step_safe ph {R} (e : eff R) (k : R -> M unit) o a ts a' r :
  safe ph (Vis e k) -> cond ph a ts -> perform e o a = Some (a', r) ->
  exists ph', safe ph' (k r) /\ cond ph' a' (ts ++ spawned e) /\
    held ph ++ jobs a ++ put_of e = start_of e ++ held ph' ++ jobs a' /\
    (start_of e = [] \/ ts = []).
Proof.
  intros Hs Hc Hp.
  destruct e; cbn in Hp; cbn [spawned put_of start_of];
    try (injection Hp as <- <-); rewrite ?app_nil_r.
  all: try solve [ exists ph; destruct ph; cbn in *; repeat split; intuition auto ].
  - (* GetProcessing *)
    destruct ph; cbn in Hs, Hc; try (exists ph; now auto);
      try (eexists; split; [apply Hs | now auto]).
    destruct Hs as [Ht Hf], Hc as [Hlen Hiff].
    destruct (processing a) eqn:E.
    + exists Guarded. cbn. rewrite E. auto.
    + exists Idle. cbn. repeat split; auto.
      destruct ts; [reflexivity |].
      assert (false = true) by (apply Hiff; discriminate). discriminate.
  - (* SetProcessing *)
    destruct ph, b; cbn in Hs; try contradiction.
    exists Claimed. cbn in *. intuition auto.
  - (* JobsEmpty *)
    destruct ph; cbn in Hs, Hc;
      try (eexists; split; [apply Hs | now auto]).
    destruct Hs as [Ht Hf], Hc as [Hts Hp].
    destruct (jobs a) eqn:E.
    + exists Idle. cbn. auto.
    + exists Ready. cbn. rewrite E. repeat split; auto. discriminate.
  - (* JobsPut *)
    exists ph. split; [apply Hs |].
    destruct ph; cbn in *; intuition auto;
      match goal with H : _ ++ [_] = [] |- _ => destruct (jobs a); discriminate H end.
  - (* JobsGet *)
    destruct ph; cbn in Hs; try contradiction.
    destruct (jobs a) as [| j q] eqn:E; [discriminate |].
    injection Hp as <- <-.
    exists (Holding j). cbn in *. intuition auto.
  - (* ThreadStart *)
    destruct ph; cbn in Hs; try contradiction.
    destruct Hs as [-> Hs], Hc as [-> Hp].
    exists Guarded. cbn. repeat split; auto. discriminate.
Qed.

(** One effect of a worker: it starts nothing and leaves the queue alone;
    either it was the clearing of the marker and the worker is done, or the
    marker is as it was and what is left is a worker. *)
Lemma worker_step_safe {R} (e : eff R) (k : R -> M unit) o a a' r :
  worker (Vis e k) -> perform e o a = Some (a', r) ->
  spawned e = [] /\ put_of e = [] /\ start_of e = [] /\ jobs a' = jobs a /\
  ((idle (k r) = true /\ processing a' = false) \/
   (worker (k r) /\ processing a' = processing a)).
Proof.
  intros Hw Hp.
  destruct e; cbn in Hw, Hp; try (destruct Hw as [Hq Hw]; try discriminate Hq);
    try (injection Hp as <- <-); cbn; auto 7.
  destruct b; [destruct Hw; discriminate |].
  auto 7.
Qed.

Lemma inv_init : inv init.
Proof.
  repeat split; cbn; [constructor | | intros t []].
  exists Guarded. cbn. repeat split; auto; discriminate.
Qed.

(** Between callbacks the main thread holds nothing, whatever it went through. *)
Lemma idle_guarded {A} ph (p : prog A) a ts :
  idle p = true -> safe ph p -> cond ph a ts -> held ph = [] /\ cond Guarded a ts.
Proof.
  destruct p; [| discriminate]. intros _ Hs Hc.
  destruct ph; cbn in *; try contradiction; split; auto.
  - destruct Hc as [-> ->]. cbn. intuition (auto; congruence).
  - destruct Hc as (-> & -> & _). cbn. intuition (auto; congruence).
Qed.

Ltac safe_walk :=
  repeat (cbn; match goal with
          | |- _ /\ _ => split
          | |- forall _, _ => intro
          | |- True => exact I
          | |- _ = _ => reflexivity
          | |- context [if ?c then _ else _] => destruct c
          | |- context [match ?x with inl _ => _ | inr _ => _ end] => destruct x
          end).

(** Both callbacks read the marker before they touch it. *)
Lemma safe_enqueue_job : safe Guarded enqueue_job.
Proof. unfold enqueue_job, process_next_job. safe_walk. Qed.

Lemma safe_poll_queue : safe Guarded poll_queue.
Proof. unfold poll_queue, process_next_job. safe_walk. Qed.

Lemma cond_var_set ph {T} (v : tkvar T) x a ts :
  cond ph a ts -> cond ph (var_set v x a) ts.
Proof.
  destruct ph; cbn; rewrite ?processing_var_set, ?jobs_var_set; auto.
Qed.

Lemma nth_error_short {A} (l : list A) i x :
  (length l <= 1)%nat -> nth_error l i = Some x -> l = [x] /\ i = O.
Proof.
  destruct l as [| y [| z l]]; cbn; intros Hl Hn; try lia.
  - destruct i; discriminate.
  - destruct i as [| i]; cbn in Hn; [injection Hn as ->; auto |].
    destruct i; discriminate.
Qed.

(** Every input preserves the invariant. *)
Lemma inv_handle s inp : inv s -> inv (handle s inp).
Proof.
  intros (Hw & (ph & Hs & Hc & Hfifo) & Hlast).
  destruct inp as [T v x | | | o | i o]; cbn [handle].
  - (* Edit *)
    destruct (idle (main s)); [| repeat split; eauto].
    repeat split; cbn [app main threads log]; auto.
    exists ph. rewrite jobs_var_set. auto using cond_var_set.
  - (* ClickGenerate *)
    destruct (idle (main s)) eqn:Hi; [| repeat split; eauto].
    destruct (idle_guarded _ _ _ _ Hi Hs Hc) as [Hh Hg]. rewrite Hh in Hfifo.
    repeat split; cbn [app main threads log]; auto.
    exists Guarded. auto using safe_enqueue_job.
  - (* Timer *)
    destruct (idle (main s)) eqn:Hi; [| repeat split; eauto].
    destruct (idle_guarded _ _ _ _ Hi Hs Hc) as [Hh Hg]. rewrite Hh in Hfifo.
    repeat split; cbn [app main threads log]; auto.
    exists Guarded. auto using safe_poll_queue.
  - (* MainStep *)
    unfold step_code.
    destruct (main s) as [x | R e k] eqn:Hm; [repeat split; eauto; rewrite Hm; eauto |].
    destruct (perform e o (app s)) as [[a' r] |] eqn:Hp;
      [| repeat split; eauto; rewrite Hm; eauto].
    destruct (main_step_safe _ _ _ _ _ _ _ _ Hs Hc Hp) as (ph' & Hs' & Hc' & Hq & Hone).
    repeat split; cbn [app main threads log].
    + apply Forall_app. split; [exact Hw |].
      destruct e; cbn [spawned]; constructor; cbn [th_code];
        auto using worker_run_job.
    + exists ph'. repeat split; auto.
      rewrite submitted_snoc, started_snoc, Hfifo, <- !app_assoc.
      f_equal. exact Hq.
    + intros t Ht. rewrite started_snoc.
      destruct Hone as [Hn | Hn].
      * rewrite Hn, app_nil_r.
        assert (spawned e = []) as He by (destruct e; cbn in *; congruence).
        rewrite He, app_nil_r in Ht. auto.
      * rewrite Hn in Ht. cbn [List.app] in Ht.
        destruct e; cbn [spawned] in Ht; try contradiction.
        destruct Ht as [<- | []]. cbn. eauto.
  - (* WorkerStep *)
    destruct (nth_error (threads s) i) as [t |] eqn:Hn; [| repeat split; eauto].
    unfold step_code.
    destruct (th_code t) as [x | R e k] eqn:Ht; [repeat split; eauto |].
    destruct (perform e o (app s)) as [[a' r] |] eqn:Hp; [| repeat split; eauto].
    assert (ph = Guarded) as ->.
    { destruct ph; cbn in Hc; auto; destruct Hc as [Hnil _];
        rewrite Hnil in Hn; destruct i; discriminate. }
    destruct Hc as [Hlen Hiff].
    destruct (nth_error_short _ _ _ Hlen Hn) as [Hts ->].
    rewrite Hts in *.
    assert (worker (Vis e k)) as Hwk.
    { rewrite <- Ht. inversion Hw; auto. }
    destruct (worker_step_safe _ _ _ _ _ _ Hwk Hp)
      as (Hsp & Hput & Hst & Hjobs & Hcase).
    rewrite Hsp, app_nil_r.
    unfold settle. cbn [th_code].
    destruct Hcase as [[Hi Hf] | [Hw' Hsame]].
    + rewrite Hi. cbn [remove_nth].
      split; [| split]; cbn [app main threads log].
      * constructor.
      * exists Guarded. cbn. repeat split; auto; try congruence.
        rewrite submitted_snoc, started_snoc, Hput, Hst, !app_nil_r, Hjobs. exact Hfifo.
      * intros t' [].
    + rewrite (worker_not_idle _ Hw'). cbn [set_nth].
      split; [| split]; cbn [app main threads log].
      * constructor; [exact Hw' | constructor].
      * exists Guarded. cbn. repeat split; auto; try discriminate.
        -- intros _. rewrite Hsame. apply Hiff. discriminate.
        -- rewrite submitted_snoc, started_snoc, Hput, Hst, !app_nil_r, Hjobs. exact Hfifo.
      * intros t' [<- | []]. cbn. rewrite started_snoc, Hst, app_nil_r.
        apply Hlast. left. reflexivity.
Qed.

Lemma inv_run inputs : forall s, inv s -> inv (run s inputs).
Proof.
  induction inputs as [| inp inputs IH]; intros s Hs; cbn; [exact Hs |].
  apply IH, inv_handle, Hs.
Qed.

(** The main thread takes a job from the queue only after it has seen the
    queue non-empty: its next effect can always be performed. *)
Lemma main_never_blocks s {R} (e : eff R) k o :
  inv s -> main s = Vis e k -> perform e o (app s) <> None.
Proof.
  intros (_ & (ph & Hs & Hc & _) & _) Hm. rewrite Hm in Hs.
  destruct e; cbn; try discriminate.
  destruct ph; cbn in Hs; try contradiction.
  destruct Hc as (_ & _ & Hne). destruct (jobs (app s)); [congruence | discriminate].
Qed.

(** A thread is started only when no worker is left. *)
Lemma start_needs_no_worker s j k :
  inv s -> main s = Vis (ThreadStart j) k -> threads s = [].
Proof.
  intros (_ & (ph & Hs & Hc & _) & _) Hm. rewrite Hm in Hs.
  destruct ph; cbn in Hs; try contradiction. apply Hc.
Qed.

Lemma run_cons s inp inputs : run s (inp :: inputs) = run (handle s inp) inputs.
Proof. reflexivity. Qed.

Lemma run_app s inputs1 inputs2 :
  run s (inputs1 ++ inputs2) = run (run s inputs1) inputs2.
Proof. apply fold_left_app. Qed.

(** ** Progress

    With no further user input, letting the threads run and the poll timer
    fire starts every submitted job, whatever the tools answer. *)

Lemma follows_app tools inputs1 : forall s inputs2,
  follows tools s (inputs1 ++ inputs2) <->
  follows tools s inputs1 /\ follows tools (run s inputs1) inputs2.
Proof.
  induction inputs1 as [| inp inputs1 IH]; intros s inputs2; cbn [List.app follows].
  - cbn. tauto.
  - rewrite run_cons, IH. tauto.
Qed.

Lemma log_handle s inp : exists new, log (handle s inp) = log s ++ new.
Proof.
  destruct inp as [T v x | | | o | i o]; cbn [handle].
  - destruct (idle (main s)); exists []; cbn; rewrite app_nil_r; reflexivity.
  - destruct (idle (main s)); exists []; cbn; rewrite app_nil_r; reflexivity.
  - destruct (idle (main s)); exists []; cbn; rewrite app_nil_r; reflexivity.
  - destruct (step_code o (main s) (app s)) as [[[[a' act] new] k] |];
      [exists [act]; reflexivity | exists []; rewrite app_nil_r; reflexivity].
  - destruct (nth_error (threads s) i) as [t |];
      [| exists []; rewrite app_nil_r; reflexivity].
    destruct (step_code o (th_code t) (app s)) as [[[[a' act] new] k] |];
      [exists [act]; reflexivity | exists []; rewrite app_nil_r; reflexivity].
Qed.

Lemma log_run inputs : forall s, exists new, log (run s inputs) = log s ++ new.
Proof.
  induction inputs as [| inp inputs IH]; intros s.
  - exists []. cbn. rewrite app_nil_r. reflexivity.
  - rewrite run_cons. destruct (IH (handle s inp)) as (new2 & ->).
    destruct (log_handle s inp) as (new1 & ->).
    exists (new1 ++ new2). rewrite app_assoc. reflexivity.
Qed.

(** The callback that is running returns. *)
Lemma main_returns tools (p : M unit) : forall s,
  main s = p -> inv s ->
  exists more,
    follows tools s more /\ idle (main (run s more)) = true /\
    (idle p = true -> more = []).
Proof.
  induction p as [x | R e k IH]; intros s Hm Hinv.
  - exists []. cbn. rewrite Hm. auto.
  - set (o := tools (length (log s))).
    destruct (perform e o (app s)) as [[a' r] |] eqn:Hp;
      [| exfalso; eapply main_never_blocks; eauto].
    assert (handle s (MainStep o)
            = mkSys a' (k r) (threads s ++ spawned e) (log s ++ [Act e])) as Hstep.
    { cbn [handle]. rewrite Hm. unfold step_code. rewrite Hp. reflexivity. }
    destruct (IH r (handle s (MainStep o))) as (more & Hf & Hi & _).
    + rewrite Hstep. reflexivity.
    + apply inv_handle, Hinv.
    + exists (MainStep o :: more). cbn [follows]. rewrite run_cons.
      split; [split; [reflexivity | exact Hf] |].
      split; [exact Hi | discriminate].
Qed.

Lemma worker_performs {R} (e : eff R) (k : R -> M unit) o a :
  worker (Vis e k) -> exists a' r, perform e o a = Some (a', r).
Proof.
  intros Hw. destruct e; cbn in *; eauto.
  destruct Hw as [Hq _]. discriminate.
Qed.

(** The worker returns, and leaves the queue as it was. *)
Lemma worker_returns tools (p : M unit) : forall s j,
  worker p -> inv s -> idle (main s) = true -> threads s = [mkThread j p] ->
  exists more,
    follows tools s more /\
    idle (main (run s more)) = true /\ threads (run s more) = [] /\
    jobs (app (run s more)) = jobs (app s) /\
    submitted (log (run s more)) = submitted (log s).
Proof.
  induction p as [x | R e k IH]; intros s j Hw Hinv Hi Hts; [contradiction |].
  set (o := tools (length (log s))).
  destruct (worker_performs e k o (app s) Hw) as (a' & r & Hp).
  destruct (worker_step_safe _ _ _ _ _ _ Hw Hp) as (Hsp & Hput & _ & Hjobs & Hcase).
  assert (handle s (WorkerStep 0 o)
          = mkSys a' (main s)
              (settle 0 (mkThread j (k r)) [mkThread j (Vis e k)])
              (log s ++ [Act e])) as Hstep.
  { cbn [handle]. rewrite Hts. cbn [nth_error th_code th_job]. unfold step_code.
    rewrite Hp, Hsp, app_nil_r. reflexivity. }
  unfold settle in Hstep. cbn [th_code] in Hstep.
  destruct Hcase as [[Hidle _] | [Hw' _]].
  - rewrite Hidle in Hstep. cbn [remove_nth] in Hstep.
    exists [WorkerStep 0 o]. cbn [follows]. split; [auto |].
    cbn [run fold_left]. rewrite Hstep. cbn [main threads app log].
    rewrite submitted_snoc, Hput, app_nil_r. auto.
  - rewrite (worker_not_idle _ Hw') in Hstep. cbn [set_nth] in Hstep.
    destruct (IH r (handle s (WorkerStep 0 o)) j Hw') as (more & Hf & Hi' & Hts' & Hj' & Hs').
    + apply inv_handle, Hinv.
    + rewrite Hstep. exact Hi.
    + rewrite Hstep. reflexivity.
    + exists (WorkerStep 0 o :: more). cbn [follows]. rewrite run_cons.
      split; [split; [reflexivity | exact Hf] |].
      rewrite Hstep in *. cbn [app log] in Hj', Hs'.
      rewrite submitted_snoc, Hput, app_nil_r in Hs'.
      repeat split; auto. congruence.
Qed.

(** With the marker clear, no worker and a job waiting, the poll timer
    starts the job at the head of the queue. *)
Lemma poll_starts_head tools s j q :
  idle (main s) = true -> threads s = [] ->
  processing (app s) = false -> jobs (app s) = j :: q ->
  exists more,
    follows tools s more /\
    idle (main (run s more)) = true /\
    threads (run s more) = [mkThread j (run_job j)] /\
    jobs (app (run s more)) = q /\
    submitted (log (run s more)) = submitted (log s).
Proof.
  destruct s as [a m ts l]. cbn [main threads app log]. intros Hi -> Hb Hq.
  destruct m as [x |]; [| discriminate].
  destruct a. cbn in Hb, Hq. subst.
  refine (ex_intro _ [Timer; MainStep _; MainStep _; MainStep _; MainStep _;
                      MainStep _; MainStep _; MainStep _; MainStep _] _).
  split.
  - cbn. repeat (split; [first [reflexivity | exact I] |]). exact I.
  - cbn. repeat split.
    unfold submitted. rewrite !flat_map_app. cbn. rewrite !app_nil_r. reflexivity.
Qed.

Lemma marker_clear_without_worker s :
  inv s -> idle (main s) = true -> threads s = [] -> processing (app s) = false.
Proof.
  intros (_ & (ph & Hs & Hc & _) & _) Hi Hts.
  destruct (idle_guarded _ _ _ _ Hi Hs Hc) as [_ [_ Hiff]]. rewrite Hts in Hiff.
  destruct (processing (app s)); [| reflexivity].
  destruct (proj1 Hiff eq_refl). reflexivity.
Qed.

(** Poll by poll, the queue is emptied. *)
Lemma queue_drains tools : forall n s,
  length (jobs (app s)) = n -> inv s -> idle (main s) = true -> threads s = [] ->
  exists more,
    follows tools s more /\
    idle (main (run s more)) = true /\ threads (run s more) = [] /\
    jobs (app (run s more)) = [] /\
    submitted (log (run s more)) = submitted (log s).
Proof.
  induction n as [| n IH]; intros s Hn Hinv Hi Hts.
  - exists []. cbn. destruct (jobs (app s)); [auto | discriminate].
  - destruct (jobs (app s)) as [| j q] eqn:Hq; [discriminate |]. injection Hn as Hn.
    pose proof (marker_clear_without_worker s Hinv Hi Hts) as Hb.
    destruct (poll_starts_head tools s j q Hi Hts Hb Hq)
      as (m1 & Hf1 & Hi1 & Hts1 & Hq1 & Hs1).
    pose proof (inv_run m1 s Hinv) as Hinv1.
    destruct (worker_returns tools (run_job j) (run s m1) j
                (worker_run_job j) Hinv1 Hi1 Hts1)
      as (m2 & Hf2 & Hi2 & Hts2 & Hq2 & Hs2).
    pose proof (inv_run m2 _ Hinv1) as Hinv2.
    destruct (IH (run (run s m1) m2)) as (m3 & Hf3 & Hi3 & Hts3 & Hq3 & Hs3); auto.
    { rewrite Hq2, Hq1. exact Hn. }
    exists (m1 ++ m2 ++ m3). rewrite !follows_app, !run_app.
    repeat split; auto. congruence.
Qed.

(** From any state the dispatcher can be in. *)
Lemma scheduling_starts_all tools s :
  inv s ->
  exists more,
    follows tools s more /\
    idle (main (run s more)) = true /\ threads (run s more) = [] /\
    jobs (app (run s more)) = [] /\ processing (app (run s more)) = false /\
    started (log (run s more)) = submitted (log (run s more)) /\
    (exists later, submitted (log (run s more)) = submitted (log s) ++ later) /\
    (idle (main s) = true -> submitted (log (run s more)) = submitted (log s)).
Proof.
  intros Hinv.
  destruct (main_returns tools (main s) s eq_refl Hinv) as (m1 & Hf1 & Hi1 & Hnil).
  pose proof (inv_run m1 s Hinv) as Hinv1.
  assert (exists m2,
            follows tools (run s m1) m2 /\
            idle (main (run (run s m1) m2)) = true /\
            threads (run (run s m1) m2) = [] /\
            submitted (log (run (run s m1) m2)) = submitted (log (run s m1)))
    as (m2 & Hf2 & Hi2 & Hts2 & Hs2).
  { destruct (threads (run s m1)) as [| t ts] eqn:Hts.
    - exists []. cbn. auto.
    - pose proof Hinv1 as (Hw & (ph & Hs & Hc & _) & _).
      destruct (idle_guarded _ _ _ _ Hi1 Hs Hc) as [_ [Hlen _]].
      rewrite Hts in Hlen, Hw. destruct ts; [| cbn in Hlen; lia].
      inversion Hw as [| t' ts' Hwt _]; subst.
      destruct t as [j p]. cbn [th_code] in Hwt.
      destruct (worker_returns tools p (run s m1) j Hwt Hinv1 Hi1 Hts)
        as (m2 & Hf2 & Hi2 & Hts2 & _ & Hs2).
      exists m2. auto. }
  pose proof (inv_run m2 _ Hinv1) as Hinv2.
  destruct (queue_drains tools _ (run (run s m1) m2) eq_refl Hinv2 Hi2 Hts2)
    as (m3 & Hf3 & Hi3 & Hts3 & Hq3 & Hs3).
  pose proof (inv_run m3 _ Hinv2) as Hinv3.
  exists (m1 ++ m2 ++ m3). rewrite !follows_app, !run_app.
  split; [auto |]. split; [exact Hi3 |]. split; [exact Hts3 |]. split; [exact Hq3 |].
  split; [apply marker_clear_without_worker; assumption |].
  split; [| split].
  - destruct Hinv3 as (_ & (ph & Hs & Hc & Hfifo) & _).
    destruct (idle_guarded _ _ _ _ Hi3 Hs Hc) as [Hh _].
    rewrite Hh, Hq3, !app_nil_r in Hfifo. symmetry. exact Hfifo.
  - rewrite Hs3, Hs2. destruct (log_run m1 s) as (new & ->).
    exists (submitted new). unfold submitted. apply flat_map_app.
  - intros Hi. rewrite Hs3, Hs2, (Hnil Hi). reflexivity.
Qed.

(** ** The job queue controller *)

(** C1. Whatever the user does and however the threads are scheduled: at
    every instant at most one worker is alive; the jobs started so far are
    the first of the jobs submitted so far, in the same order; the worker
    alive runs the job started last; and when the main thread is about to
    start a thread no worker is alive.

    And the jobs are started: from any state reached, whatever the tools
    answer from then on, letting the threads run and the poll timer fire,
    with no further user input, leads to a state between callbacks where no
    worker is left, the queue is empty, and the jobs started are exactly the
    jobs submitted, in the order of submission.  They include every job
    submitted so far; when the state reached is between callbacks they are
    exactly those. *)
Theorem fifo_single_worker (inputs : list Input) :
  let s := run init inputs in
  (length (threads s) <= 1)%nat /\
  (exists waiting, submitted (log s) = started (log s) ++ waiting) /\
  (forall t, In t (threads s) ->
     exists before, started (log s) = before ++ [th_job t]) /\
  (forall j k, main s = Vis (ThreadStart j) k -> threads s = []) /\
  (forall tools : nat -> Oracle,
     exists more,
       follows tools s more /\
       let s' := run s more in
       idle (main s') = true /\ threads s' = [] /\ jobs (app s') = [] /\
       processing (app s') = false /\
       started (log s') = submitted (log s') /\
       (exists later, submitted (log s') = submitted (log s) ++ later) /\
       (idle (main s) = true -> submitted (log s') = submitted (log s))).
Proof.
  intros s.
  assert (inv s) as Hinv by apply inv_run, inv_init.
  pose proof Hinv as (Hw & (ph & Hs & Hc & Hfifo) & Hlast).
  split; [| split; [| split; [| split]]].
  - destruct ph; cbn in Hc; destruct Hc as [Hc _]; try rewrite Hc; cbn; lia.
  - eauto.
  - exact Hlast.
  - intros j k. apply start_needs_no_worker, Hinv.
  - intros tools. apply scheduling_starts_all, Hinv.
Qed.

(** ** The generation pipeline invoker *)

Lemma truthy_true s : truthy s = true <-> s <> "".
Proof.
  unfold truthy. destruct (String.eqb_spec s ""); cbn; split; congruence.
Qed.

Lemma select_config_override preset text image :
  preset <> "" -> preset <> "auto" ->
  select_config preset text image = os_path_join config_dir preset.
Proof.
  intros Hne Hauto. unfold select_config.
  apply truthy_true in Hne. rewrite Hne.
  destruct (String.eqb_spec preset "auto"); [contradiction | reflexivity].
Qed.

(** C2. The config is a function of the preset and of which prompts are
    present.  For every preset of the closed set the form offers, ["auto"]
    included: a preset other than ["auto"] is joined to the configuration
    directory, whatever the prompts; with ["auto"], text and image give
    [imagedream.yaml], text alone [text.yaml], image alone [image.yaml].
    Prompts enter only through their presence. *)
Theorem config_resolution preset text image :
  In preset config_options ->
  (preset <> "auto" ->
     select_config preset text image = os_path_join config_dir preset) /\
  (preset = "auto" ->
     (text <> "" -> image <> "" ->
        select_config preset text image = os_path_join config_dir "imagedream.yaml") /\
     (text <> "" -> image = "" ->
        select_config preset text image = os_path_join config_dir "text.yaml") /\
     (text = "" -> image <> "" ->
        select_config preset text image = os_path_join config_dir "image.yaml")) /\
  (forall text' image',
     truthy text' = truthy text -> truthy image' = truthy image ->
     select_config preset text' image' = select_config preset text image).
Proof.
  intros Hin.
  assert (preset <> "") as Hne.
  { unfold config_options in Hin. cbn [In] in Hin.
    repeat (destruct Hin as [<- | Hin]; [discriminate |]). contradiction. }
  split; [| split].
  - apply select_config_override, Hne.
  - intros ->. unfold select_config. cbn [truthy String.eqb negb andb].
    change (truthy "auto" && negb ("auto" =? "auto")) with false. cbv iota.
    repeat split; intros Ht Hi.
    + apply truthy_true in Ht, Hi. rewrite Ht, Hi. reflexivity.
    + apply truthy_true in Ht. rewrite Ht, Hi. reflexivity.
    + apply truthy_true in Hi. rewrite Ht. reflexivity.
  - intros text' image' Ht Hi. unfold select_config. rewrite Ht, Hi. reflexivity.
Qed.

(** ** Running a program to its end *)

Lemma exec_pbind {A B} o (p : prog A) (f : A -> prog B) a :
  exec o (pbind p f) a =
  match exec o p a with
  | None => None
  | Some (a1, acts1, x) =>
      match exec o (f x) a1 with
      | None => None
      | Some (a2, acts2, y) => Some (a2, acts1 ++ acts2, y)
      end
  end.
Proof.
  revert a. induction p as [x | R e k IH]; intros a; cbn.
  - destruct (exec o (f x) a) as [[[a2 acts2] y] |]; reflexivity.
  - destruct (perform e o a) as [[a' r] |]; [| reflexivity].
    rewrite IH.
    destruct (exec o (k r) a') as [[[a1 acts1] x] |]; [| reflexivity].
    destruct (exec o (f x) a1) as [[[a2 acts2] y] |]; reflexivity.
Qed.

(** What [run_dreamgaussian] does, whatever the tool answers. *)
Lemma exec_run_dreamgaussian text_prompt image_path out_dir mesh_name hd preset o a :
  exec o (run_dreamgaussian text_prompt image_path out_dir mesh_name hd preset) a =
  let args :=
    [ sys_executable; DREAMGAUSSIAN_SCRIPT;
      "--config"; select_config preset text_prompt image_path;
      "--output_dir"; out_dir;
      "--name"; mesh_name;
      if hd then "--hd" else "--low" ]
    ++ (if truthy text_prompt then ["--text"; text_prompt] else [])
    ++ (if truthy image_path then ["--image"; image_path] else []) in
  Some (a,
        [Act (Print [PStr "Running DreamGaussian with:"; PList args]);
         Act (SubprocessRun args)]
        ++ match subprocess_result o with
           | inl _ => []
           | inr cp => [Act (Print [PStr (stdout cp)])]
                       ++ (if (returncode cp =? 0)%Z then [] else [Act (Print [PStr (stderr cp)])])
           end,
        match subprocess_result o with
        | inl ex => inl ex
        | inr cp =>
            if (returncode cp =? 0)%Z
            then inr (os_path_join out_dir (mesh_name +++ ".obj"),
                      os_path_join out_dir (mesh_name +++ ".png"))
            else inl (Exception "DreamGaussian failed!")
        end).
Proof.
  unfold run_dreamgaussian, dreamgaussian_args. cbn.
  destruct (truthy text_prompt), (truthy image_path); cbn;
  destruct (subprocess_result o) as [ex | cp]; cbn; try reflexivity;
  destruct (returncode cp =? 0)%Z; reflexivity.
Qed.

Lemma exec_bind {A B} o (m : M A) (f : A -> M B) a :
  exec o (bind m f) a =
  match exec o m a with
  | None => None
  | Some (a1, acts1, inl ex) => Some (a1, acts1, inl ex)
  | Some (a1, acts1, inr x) =>
      match exec o (f x) a1 with
      | None => None
      | Some (a2, acts2, y) => Some (a2, acts1 ++ acts2, y)
      end
  end.
Proof.
  unfold bind. rewrite exec_pbind.
  destruct (exec o m a) as [[[a1 acts1] [ex | x]] |]; cbn; try reflexivity.
  rewrite app_nil_r. reflexivity.
Qed.

Lemma exec_try_except {A} o (body : M A) (handler : exn -> M A) a :
  exec o (try_except body handler) a =
  match exec o body a with
  | None => None
  | Some (a1, acts1, inr x) => Some (a1, acts1, inr x)
  | Some (a1, acts1, inl ex) =>
      match exec o (handler ex) a1 with
      | None => None
      | Some (a2, acts2, y) => Some (a2, acts1 ++ acts2, y)
      end
  end.
Proof.
  unfold try_except. rewrite exec_pbind.
  destruct (exec o body a) as [[[a1 acts1] [ex | x]] |]; cbn; try reflexivity.
  rewrite app_nil_r. reflexivity.
Qed.

(** [finally: self.processing = False] runs whatever the body did, and the
    body's result, raised or returned, goes through. *)
Lemma exec_finally_clear {A} o (body : M A) a :
  exec o (try_finally body (call (SetProcessing false))) a =
  match exec o body a with
  | None => None
  | Some (a1, acts1, r) =>
      Some (set_processing false a1, acts1 ++ [Act (SetProcessing false)], r)
  end.
Proof.
  unfold try_finally. rewrite exec_pbind.
  destruct (exec o body a) as [[[a1 acts1] r] |]; reflexivity.
Qed.

(** Quiet code runs to its end and leaves the queue and the running marker
    as they were. *)
Lemma exec_quiet {A} o (p : prog A) :
  quiet_prog p ->
  forall a, exists a1 acts r,
    exec o p a = Some (a1, acts, r) /\
    jobs a1 = jobs a /\ processing a1 = processing a /\
    submitted acts = [] /\ started acts = [].
Proof.
  unfold quiet_prog.
  induction p as [x | R e k IH]; cbn; intros Hq a.
  - exists a, [], x. auto 6.
  - destruct Hq as [He Hk].
    assert (exists a' r, perform e o a = Some (a', r) /\
              jobs a' = jobs a /\ processing a' = processing a /\
              put_of e = [] /\ start_of e = [])
      as (a' & r & Hp & Hj & Hb & Hput & Hst).
    { destruct e; try discriminate He; cbn; eauto 8. }
    rewrite Hp.
    destruct (IH r (Hk r) a') as (a1 & acts & x & Hx & Hj1 & Hb1 & Hs1 & Hs2).
    rewrite Hx. exists a1, (Act e :: acts), x.
    change (Act e :: acts) with ([Act e] ++ acts).
    unfold submitted, started in *. rewrite !flat_map_app, Hs1, Hs2.
    repeat split; try congruence; cbn; rewrite app_nil_r; destruct e; cbn in *; congruence.
Qed.

Lemma only_exec {A} ok o (p : prog A) :
  only ok p ->
  forall a a' acts r, exec o p a = Some (a', acts, r) ->
  Forall (fun '(Act e) => ok _ e = true) acts.
Proof.
  induction p as [x | R e k IH]; cbn; intros Hp a a' acts r Hx.
  - injection Hx as <- <- <-. constructor.
  - destruct Hp as [He Hk].
    destruct (perform e o a) as [[a1 r1] |]; [| discriminate].
    destruct (exec o (k r1) a1) as [[[a2 acts2] x] |] eqn:Hk1; [| discriminate].
    injection Hx as <- <- <-. constructor; [exact He |]. eapply IH; eauto.
Qed.

Lemma conversion_free_exec {A} o (p : prog A) a a' acts r :
  conversion_free p -> exec o p a = Some (a', acts, r) ->
  filter is_conversion acts = [].
Proof.
  intros Hp Hx. pose proof (only_exec _ _ _ Hp _ _ _ _ Hx) as Hall.
  clear Hx. induction Hall as [| [R e] acts He _ IH]; [reflexivity |].
  cbn [filter]. apply negb_true_iff in He. rewrite He. exact IH.
Qed.

(** [run_job] always returns: what the [try] block raises becomes an error
    dialog, and the marker is cleared last. *)
Lemma exec_run_job j o a :
  exists a1 acts1 r,
    exec o (run_job_body j) a = Some (a1, acts1, r) /\
    exec o (run_job j) a =
      Some (set_processing false a1,
            (acts1
             ++ match r with
                | inl ex => [Act (MessageBox Error "Error" ("Job failed: " +++ message ex))]
                | inr _ => []
                end)
            ++ [Act (SetProcessing false)],
            inr tt) /\
    jobs a1 = jobs a /\ processing a1 = processing a /\
    submitted acts1 = [] /\ started acts1 = [].
Proof.
  destruct (exec_quiet o _ (quiet_run_job_body j) a)
    as (a1 & acts1 & r & Hx & Hj & Hb & Hs1 & Hs2).
  exists a1, acts1, r. repeat split; auto.
  unfold run_job, job_boundary. rewrite exec_finally_clear, exec_try_except, Hx.
  destruct r as [ex | []]; cbn; rewrite ?app_nil_r; reflexivity.
Qed.

Lemma conversion_free_run_dreamgaussian text_prompt image_path out_dir mesh_name hd preset :
  conversion_free
    (run_dreamgaussian text_prompt image_path out_dir mesh_name hd preset).
Proof. unfold conversion_free, run_dreamgaussian. shape_walk. Qed.

Lemma conversion_free_show_preview mesh_path : conversion_free (show_preview mesh_path).
Proof. unfold conversion_free, show_preview. shape_walk. Qed.

(** C8. A job with [voxel_mode = False] never calls into the conversion
    routine: not on any path through [run_job], whatever the external tools
    answer, and so not in the run of the job. *)
Theorem no_conversion_without_voxel j :
  Job.voxel_mode j = false ->
  conversion_free (run_job j) /\
  forall o a, exists a' acts,
    exec o (run_job j) a = Some (a', acts, inr tt) /\
    filter is_conversion acts = [].
Proof.
  intros Hv.
  assert (conversion_free (run_job j)) as Hfree.
  { pose proof conversion_free_run_dreamgaussian.
    pose proof conversion_free_show_preview.
    unfold conversion_free in *.
    unfold run_job, job_boundary, run_job_body, pipeline. rewrite Hv.
    shape_walk. }
  split; [exact Hfree |]. intros o a.
  destruct (exec_run_job j o a) as (a1 & acts1 & r & _ & Hx & _).
  eexists; eexists; split; [exact Hx |].
  eapply conversion_free_exec; eauto.
Qed.

(** With the marker clear and a job waiting, a poll takes the job at the head
    of the queue and starts it. *)
Lemma exec_poll_dispatch o a next rest :
  processing a = false -> jobs a = next :: rest ->
  exec o poll_queue a =
    Some (set_job_list (remove_nth 0 (job_list a)) (set_jobs rest (set_processing true a)),
          [Act GetProcessing; Act JobsEmpty; Act JobsEmpty; Act (SetProcessing true);
           Act JobsGet; Act (JobListDelete 0); Act (ThreadStart next); Act (After 200)],
          inr tt).
Proof.
  intros Hb Hq. unfold poll_queue, process_next_job. cbn.
  rewrite Hb. cbn. repeat (rewrite Hq; cbn). reflexivity.
Qed.

(** C7. Whatever goes wrong in a job's pipeline, [run_job] returns normally:
    an exception raised by the [try] block is turned into the error dialog,
    the running marker is cleared last on success and on failure alike, the
    queue is left as it was, and the next poll starts the job at the head of
    the queue. *)
Theorem failure_contained j o a :
  exists a1 acts1 r,
    exec o (run_job_body j) a = Some (a1, acts1, r) /\
    exec o (run_job j) a =
      Some (set_processing false a1,
            (acts1
             ++ match r with
                | inl ex => [Act (MessageBox Error "Error" ("Job failed: " +++ message ex))]
                | inr _ => []
                end)
            ++ [Act (SetProcessing false)],
            inr tt) /\
    processing (set_processing false a1) = false /\
    jobs (set_processing false a1) = jobs a /\
    forall next rest, jobs a = next :: rest ->
      exists a2 acts2,
        exec o poll_queue (set_processing false a1) = Some (a2, acts2, inr tt) /\
        started acts2 = [next] /\ jobs a2 = rest /\ processing a2 = true.
Proof.
  destruct (exec_run_job j o a) as (a1 & acts1 & r & Hbody & Hjob & Hj & _).
  exists a1, acts1, r. repeat split; auto.
  intros next rest Hq. rewrite Hq in Hj.
  rewrite (exec_poll_dispatch o (set_processing false a1) next rest eq_refl Hj).
  eexists; eexists; repeat split.
Qed.

(** C9. [run_dreamgaussian] calls the tool once, with the interpreter and the
    script followed by [--config], the config path, [--output_dir], the
    output directory, [--name], the asset name, one of [--hd] and [--low],
    then [--text] and the text prompt when there is one, then [--image] and
    the image path when there is one.  When the tool exits with status 0 the
    result is the pair of [<out_dir>/<name>.obj] and [<out_dir>/<name>.png]. *)
Theorem command_line text_prompt image_path out_dir mesh_name hd preset o a :
  exists acts r,
    exec o (run_dreamgaussian text_prompt image_path out_dir mesh_name hd preset) a
      = Some (a, acts, r) /\
    subprocess_calls acts =
      [ [ sys_executable; DREAMGAUSSIAN_SCRIPT;
          "--config"; select_config preset text_prompt image_path;
          "--output_dir"; out_dir;
          "--name"; mesh_name;
          if hd then "--hd" else "--low" ]
        ++ (if truthy text_prompt then ["--text"; text_prompt] else [])
        ++ (if truthy image_path then ["--image"; image_path] else []) ] /\
    r = match subprocess_result o with
        | inl ex => inl ex
        | inr cp =>
            if (returncode cp =? 0)%Z
            then inr (os_path_join out_dir (mesh_name +++ ".obj"),
                      os_path_join out_dir (mesh_name +++ ".png"))
            else inl (Exception "DreamGaussian failed!")
        end.
Proof.
  rewrite exec_run_dreamgaussian. cbn zeta.
  eexists; eexists; split; [reflexivity |]. split; [| reflexivity].
  unfold subprocess_calls. rewrite flat_map_app. cbn.
  destruct (subprocess_result o) as [ex | cp]; cbn; [reflexivity |].
  destruct (returncode cp =? 0)%Z; reflexivity.
Qed.

(** C3 (amended). When the tool exits with a non-zero status the job fails:
    the only dialog is the error dialog, with the fixed text
    [Job failed: DreamGaussian failed!]; the captured stderr is printed to
    the console; nothing is converted and the preview is left as it was. *)
Theorem generation_failure j o a cp :
  subprocess_result o = inr cp ->
  returncode cp <> 0%Z ->
  exists a' acts,
    exec o (run_job j) a = Some (a', acts, inr tt) /\
    dialogs acts = [(Error, "Error", "Job failed: DreamGaussian failed!")] /\
    In [PStr (stderr cp)] (printed acts) /\
    filter is_conversion acts = [] /\
    preview_mesh_path a' = preview_mesh_path a /\
    preview_label a' = preview_label a.
Proof.
  intros Hsub Hrc. apply Z.eqb_neq in Hrc.
  unfold run_job, job_boundary. rewrite exec_finally_clear, exec_try_except.
  unfold run_job_body, pipeline. rewrite exec_bind. cbn [exec call perform var_get].
  rewrite exec_bind, exec_run_dreamgaussian. cbn zeta. rewrite Hsub, Hrc. cbn.
  eexists; eexists; split; [reflexivity |].
  repeat split; auto.
  cbn. auto.
Qed.

(** C6. When the tool exits with status 0 and the conversion, if asked for,
    goes through, the success dialog lists the mesh path, then the texture
    path exactly when [texture_only] or [mesh_and_texture] is set, then the
    voxel path [<out_dir>/<name>_<voxel_res>.vox] exactly when [voxel_mode]
    is set; the mesh path becomes the preview. *)
Theorem result_paths j o a cp :
  subprocess_result o = inr cp ->
  returncode cp = 0%Z ->
  (Job.voxel_mode j = true ->
     obj2vox_importable o = true /\ obj2vox_result o = None) ->
  let obj_path := os_path_join (Job.out_dir j) (Job.mesh_name j +++ ".obj") in
  let tex_path := os_path_join (Job.out_dir j) (Job.mesh_name j +++ ".png") in
  let vox_path :=
    os_path_join (Job.out_dir j)
      (Job.mesh_name j +++ "_" +++ str_int (Job.voxel_res j) +++ ".vox") in
  let out_paths :=
    [obj_path]
    ++ (if Job.texture_only j || Job.mesh_and_texture j then [tex_path] else [])
    ++ (if Job.voxel_mode j then [vox_path] else []) in
  exists a' acts,
    exec o (run_job j) a = Some (a', acts, inr tt) /\
    dialogs acts =
      [(Info, "Success",
        "Generation complete!" +++ nl +++ "Files:" +++ nl +++ join_lines out_paths)] /\
    preview_mesh_path a' = Some obj_path.
Proof.
  intros Hsub Hrc Hvox obj_path tex_path vox_path out_paths.
  subst obj_path tex_path vox_path out_paths.
  destruct o as [ld sub imp vox rnd], cp as [rc out err], j as [t i d n mo to mt vm vr].
  cbn in Hsub, Hrc, Hvox |- *. subst sub rc.
  destruct vm; [destruct (Hvox eq_refl) as [-> ->] |];
    destruct to, mt; destruct rnd as [ex | [|]]; cbn;
    eexists; eexists; repeat split.
Qed.

(** *** Submission *)

Lemma chars_nonempty s : Forall (fun ch => ch <> "") (chars s).
Proof.
  induction s as [| b s IH]; cbn; [constructor |].
  destruct (chars s) as [| [| b' ch] rest].
  - repeat constructor. discriminate.
  - constructor; [discriminate | exact IH].
  - destruct (continuation b').
    + inversion IH; subst. constructor; [discriminate | assumption].
    + constructor; [discriminate | exact IH].
Qed.

Lemma str_join_chars s : str_join (chars s) = s.
Proof.
  induction s as [| b s IH]; cbn; [reflexivity |].
  destruct (chars s) as [| [| b' ch] rest]; cbn in *.
  - rewrite <- IH. reflexivity.
  - rewrite <- IH. reflexivity.
  - destruct (continuation b'); cbn; rewrite <- IH; reflexivity.
Qed.

Lemma str_join_empty l : Forall (fun ch => ch <> "") l -> str_join l = "" -> l = [].
Proof.
  intros Hl Hj. destruct l as [| ch l]; [reflexivity |].
  inversion Hl; subst. destruct ch; [congruence | discriminate].
Qed.

Lemma lstrip_chars_empty l : lstrip_chars l = [] <-> forallb space_char l = true.
Proof.
  induction l as [| ch l IH]; cbn; [tauto |].
  destruct (space_char ch); cbn; [exact IH | split; discriminate].
Qed.

Lemma lstrip_chars_remains l :
  forallb space_char (lstrip_chars l) = forallb space_char l.
Proof.
  induction l as [| ch l IH]; cbn; [reflexivity |].
  destruct (space_char ch) eqn:Hc; cbn; [exact IH | rewrite Hc; reflexivity].
Qed.

Lemma forallb_rev {A} (f : A -> bool) l : forallb f (rev l) = forallb f l.
Proof.
  induction l as [| x l IH]; cbn; [reflexivity |].
  rewrite forallb_app, IH. cbn. rewrite andb_true_r. apply andb_comm.
Qed.

Lemma lstrip_chars_incl l : incl (lstrip_chars l) l.
Proof.
  induction l as [| ch l IH]; cbn; [apply incl_refl |].
  destruct (space_char ch); [apply incl_tl, IH | apply incl_refl].
Qed.

(** [strip] gives the empty string exactly on whitespace. *)
Lemma strip_empty s : strip s = "" <-> all_space s = true.
Proof.
  unfold strip, all_space, rstrip_chars. split.
  - intros H. apply str_join_empty in H.
    + apply (f_equal (@rev string)) in H. rewrite rev_involutive in H. cbn in H.
      apply lstrip_chars_empty in H.
      rewrite forallb_rev, lstrip_chars_remains in H. exact H.
    + apply Forall_forall. intros ch Hin.
      apply in_rev, lstrip_chars_incl, in_rev, lstrip_chars_incl in Hin.
      revert ch Hin. apply Forall_forall, chars_nonempty.
  - intros H. apply lstrip_chars_empty in H. rewrite H. reflexivity.
Qed.

Lemma truthy_strip s : truthy (strip s) = negb (all_space s).
Proof.
  unfold truthy. destruct (String.eqb_spec (strip s) "") as [H | H]; cbn.
  - apply strip_empty in H. rewrite H. reflexivity.
  - destruct (all_space s) eqn:Hs; [| reflexivity].
    apply strip_empty in Hs. contradiction.
Qed.

(** *** The encoding is read back as it was written

    [strip] and [all_space] on the bytes do what [str.strip] and
    [str.isspace] do on the code points. *)

Lemma N_of_byte n : (n < 256)%N -> N_of_ascii (ascii_of_N n) = n.
Proof. apply N_ascii_embedding. Qed.

Ltac euclid := zify; Z.to_euclidean_division_equations; lia.

Ltac bytes :=
  repeat match goal with
         | |- context [N_of_ascii (ascii_of_N ?n)] =>
             rewrite (N_of_byte n) by euclid
         end.

Ltac decide_tests :=
  repeat match goal with
         | |- context [(?x <=? ?y)%N] =>
             destruct (N.leb_spec x y); try (exfalso; euclid)
         | |- context [(?x <? ?y)%N] =>
             destruct (N.ltb_spec x y); try (exfalso; euclid)
         end.

Lemma utf8_char_shape c :
  code_point c ->
  exists b conts,
    utf8_char c = String b conts /\ continuation b = false /\
    continuations conts = true.
Proof.
  unfold code_point, utf8_char. intros Hc.
  destruct (N.ltb_spec c 0x80); [| destruct (N.ltb_spec c 0x800);
    [| destruct (N.ltb_spec c 0x10000)]];
    eexists; eexists; (split; [reflexivity |]);
    unfold continuations, continuation, trail; cbn [list_ascii_of_string forallb];
    bytes; split; decide_tests; reflexivity.
Qed.

Lemma ord_utf8_char c : code_point c -> ord (utf8_char c) = Some c.
Proof.
  unfold code_point, utf8_char, ord, trail. intros Hc.
  destruct (N.ltb_spec c 0x80); [| destruct (N.ltb_spec c 0x800);
    [| destruct (N.ltb_spec c 0x10000)]];
    cbn [list_ascii_of_string map]; bytes; cbv zeta; decide_tests; cbn [andb];
    f_equal; euclid.
Qed.

Lemma chars_head b s : exists ch rest, chars (String b s) = String b ch :: rest.
Proof.
  cbn. destruct (chars s) as [| [| b' ch] rest]; eauto.
  destruct (continuation b'); eauto.
Qed.

(** A character followed by the start of another is split off whole. *)
Lemma chars_char conts : forall b rest,
  continuations conts = true -> starts_char rest = true ->
  chars (String b (conts +++ rest)) = String b conts :: chars rest.
Proof.
  induction conts as [| c conts IH]; intros b rest Hc Hr.
  - cbn [String.append]. destruct rest as [| b' rest]; [reflexivity |].
    cbn in Hr. apply negb_true_iff in Hr.
    destruct (chars_head b' rest) as (ch & l & Hch).
    change (chars (String b (String b' rest)))
      with (match chars (String b' rest) with
            | String b'' ch' :: rest' =>
                if continuation b'' then String b (String b'' ch') :: rest'
                else String b EmptyString :: String b'' ch' :: rest'
            | rest' => String b EmptyString :: rest'
            end).
    rewrite Hch, Hr. reflexivity.
  - unfold continuations in Hc. cbn in Hc. apply andb_true_iff in Hc as [Hc1 Hc2].
    change (chars (String b (String c conts +++ rest)))
      with (match chars (String c (conts +++ rest)) with
            | String b'' ch' :: rest' =>
                if continuation b'' then String b (String b'' ch') :: rest'
                else String b EmptyString :: String b'' ch' :: rest'
            | rest' => String b EmptyString :: rest'
            end).
    rewrite (IH c rest Hc2 Hr), Hc1. reflexivity.
Qed.

Lemma chars_utf8 l :
  Forall code_point l ->
  chars (utf8 l) = map utf8_char l /\ starts_char (utf8 l) = true.
Proof.
  induction 1 as [| c l Hc Hl [IH1 IH2]]; [split; reflexivity |].
  destruct (utf8_char_shape c Hc) as (b & conts & He & Hb & Hcs).
  unfold utf8 in *. cbn [map str_join fold_right]. rewrite He.
  cbn [String.append starts_char]. rewrite Hb. split; [| reflexivity].
  fold (str_join (map utf8_char l)).
  rewrite (chars_char conts b _ Hcs IH2), IH1. reflexivity.
Qed.

Lemma lstrip_chars_utf8 l :
  Forall code_point l ->
  lstrip_chars (map utf8_char l) = map utf8_char (lstrip_points l).
Proof.
  induction 1 as [| c l Hc Hl IH]; [reflexivity |].
  cbn. unfold space_char. rewrite (ord_utf8_char c Hc).
  destruct (isspace c); [exact IH | reflexivity].
Qed.

Lemma lstrip_points_code l : Forall code_point l -> Forall code_point (lstrip_points l).
Proof.
  induction 1 as [| c l Hc Hl IH]; cbn; [constructor |].
  destruct (isspace c); [exact IH | constructor; assumption].
Qed.

(** [strip] on the encoding of a [str] is the encoding of what
    [str.strip] leaves of its code points. *)
Lemma strip_utf8 l :
  Forall code_point l -> strip (utf8 l) = utf8 (strip_points l).
Proof.
  intros Hl. unfold strip, rstrip_chars, strip_points, utf8 at 2.
  destruct (chars_utf8 l Hl) as [-> _].
  rewrite (lstrip_chars_utf8 l Hl), <- map_rev, lstrip_chars_utf8, map_rev.
  - reflexivity.
  - apply Forall_rev, lstrip_points_code, Hl.
Qed.

Lemma all_space_utf8 l :
  Forall code_point l -> all_space (utf8 l) = forallb isspace l.
Proof.
  intros Hl. unfold all_space. destruct (chars_utf8 l Hl) as [-> _].
  induction Hl as [| c l Hc Hl IH]; [reflexivity |].
  cbn. unfold space_char at 1. rewrite (ord_utf8_char c Hc), IH. reflexivity.
Qed.

(** C5. A submission with both prompts unset shows the warning and returns:
    the application object, and with it the queue and its length, is left
    as it was, nothing is put in the queue and no thread is started. *)
Theorem empty_submission_rejected o a :
  text_prompt a = "" ->
  image_path a = "" ->
  exists a' acts,
    exec o enqueue_job a = Some (a', acts, inr tt) /\
    a' = a /\
    length (jobs a') = length (jobs a) /\
    submitted acts = [] /\
    started acts = [] /\
    dialogs acts = [(Warning, "No prompt", "Provide text and/or image prompt.")].
Proof.
  intros Ht Hi. unfold enqueue_job. cbn. rewrite Ht, Hi. cbn.
  eexists; eexists; repeat split.
Qed.

Lemma dreamgaussian_args_eq text_prompt image_path out_dir mesh_name hd preset :
  dreamgaussian_args text_prompt image_path out_dir mesh_name hd preset =
  [ sys_executable; DREAMGAUSSIAN_SCRIPT;
    "--config"; select_config preset text_prompt image_path;
    "--output_dir"; out_dir;
    "--name"; mesh_name;
    if hd then "--hd" else "--low" ]
  ++ (if truthy text_prompt then ["--text"; text_prompt] else [])
  ++ (if truthy image_path then ["--image"; image_path] else []).
Proof.
  unfold dreamgaussian_args.
  destruct (truthy text_prompt), (truthy image_path); reflexivity.
Qed.

(** The tool is called once in a job, on the command line built from the
    job's tuple and the preset the pipeline was given. *)
Lemma pipeline_invocation j preset o a :
  exists a' acts,
    exec o (job_boundary (pipeline j preset)) a = Some (a', acts, inr tt) /\
    subprocess_calls acts =
      [dreamgaussian_args (Job.text j) (Job.img j) (Job.out_dir j) (Job.mesh_name j)
         true preset].
Proof.
  unfold job_boundary. rewrite exec_finally_clear, exec_try_except.
  unfold pipeline. rewrite exec_bind, exec_run_dreamgaussian. cbn zeta.
  rewrite dreamgaussian_args_eq.
  destruct o as [ld sub imp vox rnd]. cbn [subprocess_result].
  destruct sub as [ex | cp]; [cbn; eexists; eexists; split; reflexivity |].
  destruct (returncode cp =? 0)%Z; [| cbn; eexists; eexists; split; reflexivity].
  destruct (Job.voxel_mode j), imp, vox as [ex |],
    (Job.texture_only j || Job.mesh_and_texture j), rnd as [ex' | [|]];
    cbn; eexists; eexists; split; reflexivity.
Qed.

(** C4 (amended). The job tuple holds the prompts, the output directory,
    the asset name, the output flags and the voxel settings, and no preset;
    an edit of the form leaves the queued tuples as they are.  The first
    thing a worker does is read the preset selected at that moment, and the
    tool is then called with the command line built from the tuple and that
    preset, whatever is selected later.  When that preset is neither empty
    nor ["auto"], the config path is the preset joined to the configuration
    directory. *)
Theorem preset_read_when_job_runs j o a :
  step_code o (run_job j) a
    = Some (a, Act (VarGet v_config_preset), [],
            job_boundary (pipeline j (config_preset a))) /\
  (forall o' a', exists a'' acts,
     exec o' (job_boundary (pipeline j (config_preset a))) a' = Some (a'', acts, inr tt) /\
     subprocess_calls acts =
       [dreamgaussian_args (Job.text j) (Job.img j) (Job.out_dir j) (Job.mesh_name j)
          true (config_preset a)]) /\
  (config_preset a <> "" -> config_preset a <> "auto" ->
   select_config (config_preset a) (Job.text j) (Job.img j)
     = os_path_join config_dir (config_preset a)) /\
  (forall T (v : tkvar T) x, jobs (var_set v x a) = jobs a).
Proof.
  split; [reflexivity |]. split; [| split].
  - intros o' a'. apply pipeline_invocation.
  - apply select_config_override.
  - intros T v x. apply jobs_var_set.
Qed.

(** C10. [enqueue_job] strips both prompts before anything else.  When both
    are whitespace only, the submission is rejected exactly as when both are
    empty.  Otherwise the tuple put in the queue holds the stripped prompts,
    and the job's command line is built from them.  Whitespace is what
    [str.isspace] says of a code point: when the prompts are the strings of
    the code points [t] and [i], the stripped prompts are the strings of
    [t] and [i] without their leading and trailing whitespace code points,
    and a prompt is whitespace only when all its code points are. *)
Theorem prompts_stripped o a :
  let text := strip (text_prompt a) in
  let img := strip (image_path a) in
  (all_space (text_prompt a) = true -> all_space (image_path a) = true ->
   let unset := var_set v_text_prompt "" (var_set v_image_path "" a) in
   exists acts,
     exec o enqueue_job a = Some (a, acts, inr tt) /\
     exec o enqueue_job unset = Some (unset, acts, inr tt) /\
     submitted acts = [] /\
     dialogs acts = [(Warning, "No prompt", "Provide text and/or image prompt.")]) /\
  (forall n,
     all_space (text_prompt a) = false \/ all_space (image_path a) = false ->
     listdir_result o = inr n ->
     let job :=
       Job.mk text img (output_dir a) ("dreamasset_" +++ str_nat n)
         (mesh_only a) (texture_only a) (mesh_and_texture a)
         (voxel_mode a) (voxel_res a) in
     (exists a' acts,
        exec o enqueue_job a = Some (a', acts, inr tt) /\ submitted acts = [job]) /\
     (forall preset o' a2, exists a3 acts,
        exec o' (job_boundary (pipeline job preset)) a2 = Some (a3, acts, inr tt) /\
        subprocess_calls acts =
          [dreamgaussian_args text img (output_dir a) ("dreamasset_" +++ str_nat n)
             true preset])) /\
  (forall t i,
     Forall code_point t -> Forall code_point i ->
     text_prompt a = utf8 t -> image_path a = utf8 i ->
     text = utf8 (strip_points t) /\ img = utf8 (strip_points i) /\
     all_space (text_prompt a) = forallb isspace t /\
     all_space (image_path a) = forallb isspace i).
Proof.
  intros text img. subst text img. split; [| split].
  - intros Ht Hi unset. subst unset.
    unfold enqueue_job. cbn -[truthy strip].
    rewrite !truthy_strip, Ht, Hi. cbn.
    eexists; repeat split.
  - intros n Hne Hld job. subst job. split.
    + assert (negb (truthy (strip (text_prompt a)))
              && negb (truthy (strip (image_path a))) = false) as Hcheck.
      { rewrite !truthy_strip. destruct Hne as [-> | ->]; cbn;
          rewrite ?andb_false_r; reflexivity. }
      unfold enqueue_job, process_next_job. cbn -[truthy strip]. rewrite Hcheck.
      cbn -[truthy strip]. rewrite Hld. cbn -[truthy strip].
      destruct (processing a); cbn -[truthy strip]; [eexists; eexists; repeat split |].
      destruct (jobs a) as [| j0 q]; cbn -[truthy strip]; eexists; eexists; repeat split.
    + intros preset o' a2. apply pipeline_invocation.
  - intros t i Ht Hi -> ->.
    rewrite !strip_utf8, !all_space_utf8 by assumption. auto.
Qed.

(** ** Threads run what [exec] says *)

(** A worker scheduled without interruption performs the effects of [exec]
    and leaves the list of live threads. *)
Lemma worker_steps_exec o (p : M unit) :
  worker p ->
  forall a a' acts r m j l,
    exec o p a = Some (a', acts, r) ->
    run (mkSys a m [mkThread j p] l) (repeat (WorkerStep 0 o) (length acts))
    = mkSys a' m [] (l ++ acts).
Proof.
  induction p as [x | R e k IH]; intros Hw a a' acts r m j l Hx; [contradiction |].
  cbn in Hx.
  destruct (perform e o a) as [[a1 r1] |] eqn:Hp; [| discriminate].
  destruct (exec o (k r1) a1) as [[[a2 acts2] x] |] eqn:Hk; [| discriminate].
  injection Hx as <- <- <-.
  destruct (worker_step_safe _ _ _ _ _ _ Hw Hp) as (Hsp & _ & _ & _ & Hcase).
  cbn [length repeat]. rewrite run_cons.
  assert (handle (mkSys a m [mkThread j (Vis e k)] l) (WorkerStep 0 o)
          = mkSys a1 m (settle 0 (mkThread j (k r1)) [mkThread j (Vis e k)])
              (l ++ [Act e])) as ->.
  { cbn. rewrite Hp, Hsp, app_nil_r. reflexivity. }
  unfold settle. cbn [th_code].
  destruct Hcase as [[Hi _] | [Hw' _]].
  - rewrite Hi. destruct (k r1) as [y |]; [| discriminate].
    cbn in Hk. injection Hk as <- <- <-. reflexivity.
  - rewrite (worker_not_idle _ Hw'). cbn [set_nth].
    rewrite (IH r1 Hw' _ _ _ _ m j (l ++ [Act e]) Hk), <- app_assoc. reflexivity.
Qed.

(** So does a callback on the main thread; the threads it starts are added
    to the live ones. *)
Lemma main_steps_exec o (p : M unit) :
  forall a a' acts r ts l,
    exec o p a = Some (a', acts, r) ->
    run (mkSys a p ts l) (repeat (MainStep o) (length acts))
    = mkSys a' (Ret r) (ts ++ flat_map (fun '(Act e) => spawned e) acts) (l ++ acts).
Proof.
  induction p as [x | R e k IH]; intros a a' acts r ts l Hx; cbn in Hx.
  - injection Hx as <- <- <-. cbn. rewrite !app_nil_r. reflexivity.
  - destruct (perform e o a) as [[a1 r1] |] eqn:Hp; [| discriminate].
    destruct (exec o (k r1) a1) as [[[a2 acts2] x] |] eqn:Hk; [| discriminate].
    injection Hx as <- <- <-.
    cbn [length repeat]. rewrite run_cons.
    assert (handle (mkSys a (Vis e k) ts l) (MainStep o)
            = mkSys a1 (k r1) (ts ++ spawned e) (l ++ [Act e])) as ->.
    { cbn. rewrite Hp. reflexivity. }
    rewrite (IH r1 _ _ _ _ _ _ Hk). cbn [flat_map]. rewrite <- !app_assoc. reflexivity.
Qed.

(** The same in the threaded system: a worker runs job [j] while [next]
    waits at the head of the queue.  Whatever the tools answer, once the
    worker has run to its end and the poll timer has fired, [next] is the
    job of the one live worker and the rest of the queue is waiting. *)
Corollary queue_continues_after_job j o a m l next rest :
  idle m = true -> jobs a = next :: rest ->
  exists n a' l',
    run (mkSys a m [mkThread j (run_job j)] l)
      (repeat (WorkerStep 0 o) n ++ [Timer] ++ repeat (MainStep o) 8)
    = mkSys a' (ret tt) [mkThread next (run_job next)] l' /\
    jobs a' = rest /\ processing a' = true /\
    started l' = started l ++ [next].
Proof.
  intros Hm Hq.
  destruct (exec_run_job j o a) as (a1 & acts1 & r & _ & Hjob & Hj & _ & _ & Hst).
  rewrite Hq in Hj.
  pose proof (worker_steps_exec o _ (worker_run_job j) _ _ _ _ m j l Hjob) as Hw.
  pose proof (exec_poll_dispatch o (set_processing false a1) next rest eq_refl Hj) as Hp.
  remember (l ++ (acts1 ++ _) ++ [Act (SetProcessing false)]) as l1 eqn:Hl1 in Hw.
  pose proof (main_steps_exec o _ _ _ _ _ [] l1 Hp) as Hmain.
  cbn [length] in Hmain.
  eexists; eexists; eexists.
  rewrite run_app, Hw. cbn [List.app]. rewrite run_cons.
  assert (handle (mkSys (set_processing false a1) m [] l1) Timer
          = mkSys (set_processing false a1) poll_queue [] l1) as ->.
  { cbn. rewrite Hm. reflexivity. }
  rewrite Hmain.
  split; [reflexivity |]. cbn [jobs processing set_job_list set_jobs set_processing].
  repeat split.
  subst l1. unfold started in *. rewrite !flat_map_app, Hst. cbn.
  destruct r; cbn; rewrite ?app_nil_r; reflexivity.
Qed.

(** * Further properties of the code *)

(** ** What the dispatcher's invariant gives between callbacks *)

(** X1. The running marker is set whenever a worker is alive; and between
    callbacks it is set only when a worker is alive. *)
Theorem marker_tracks_worker (inputs : list Input) :
  let s := run init inputs in
  (threads s <> [] -> processing (app s) = true) /\
  (idle (main s) = true -> processing (app s) = true -> threads s <> []).
Proof.
  intros s.
  assert (inv s) as (_ & (ph & Hs & Hc & _) & _) by apply inv_run, inv_init.
  split.
  - intros Hne. destruct ph; cbn in Hc; try (destruct Hc as [Hnil _]; contradiction).
    apply Hc, Hne.
  - intros Hi. destruct (idle_guarded _ _ _ _ Hi Hs Hc) as [_ [_ Hiff]]. apply Hiff.
Qed.

(** X2. Between callbacks the queue holds exactly the submitted jobs that
    have not been started, in submission order: no job is lost and none is
    queued twice. *)
Theorem queue_is_what_was_not_started (inputs : list Input) :
  let s := run init inputs in
  idle (main s) = true ->
  submitted (log s) = started (log s) ++ jobs (app s).
Proof.
  intros s Hi.
  assert (inv s) as (_ & (ph & Hs & Hc & Hfifo) & _) by apply inv_run, inv_init.
  destruct (idle_guarded _ _ _ _ Hi Hs Hc) as [Hh _].
  rewrite Hh in Hfifo. exact Hfifo.
Qed.

(** X3. [Queue.get] never waits.  The emptiness check and the [get] of
    [process_next_job] are separate steps, and workers run in between; still,
    whenever the main thread is about to call [self.jobs.get()] the queue is
    not empty, so the call returns the job at the head of the queue at once.
    No worker is ever about to call it. *)
Theorem get_never_waits (inputs : list Input) :
  let s := run init inputs in
  (forall k, main s = Vis JobsGet k ->
     exists j q, jobs (app s) = j :: q /\
       forall o, handle s (MainStep o)
                 = mkSys (set_jobs q (app s)) (k j) (threads s) (log s ++ [Act JobsGet])) /\
  (forall t k, In t (threads s) -> th_code t <> Vis JobsGet k).
Proof.
  intros s.
  assert (inv s) as Hinv by apply inv_run, inv_init.
  split.
  - intros k Hm.
    pose proof Hinv as (_ & (ph & Hs & Hc & _) & _). rewrite Hm in Hs.
    destruct ph; cbn in Hs; try contradiction.
    destruct Hc as (_ & _ & Hne).
    destruct (jobs (app s)) as [| j q] eqn:Hq; [congruence |].
    exists j, q. split; [reflexivity |]. intros o.
    cbn [handle]. rewrite Hm. unfold step_code. cbn [perform]. rewrite Hq.
    cbn [spawned]. rewrite app_nil_r. reflexivity.
  - intros t k Hin Ht.
    destruct Hinv as (Hw & _). rewrite Forall_forall in Hw.
    specialize (Hw t Hin). rewrite Ht in Hw. destruct Hw as [Hq _]. discriminate.
Qed.

(** ** One job, from the tool's answers to the dialog *)

Ltac open_run_job :=
  unfold run_job, job_boundary; rewrite exec_finally_clear, exec_try_except;
  unfold run_job_body; rewrite exec_bind; cbn [exec call perform var_get];
  unfold pipeline; rewrite exec_bind, exec_run_dreamgaussian; cbn zeta.

(** How a job ends: with the success dialog, the mesh path as the preview
    and the label of [show_preview]; or with the error dialog and nothing
    but the marker changed. *)
Lemma exec_run_job_outcome j o a :
  exists a' acts,
    exec o (run_job j) a = Some (a', acts, inr tt) /\
    ((exists msg,
        dialogs acts = [(Info, "Success", msg)] /\
        a' = set_processing false
               (set_preview_label (preview_label_after o)
                  (set_preview_mesh_path (Some (mesh_path_of j)) a))) \/
     (exists msg,
        dialogs acts = [(Error, "Error", msg)] /\ a' = set_processing false a)).
Proof.
  open_run_job. unfold preview_label_after, mesh_path_of.
  destruct o as [ld sub imp vox rnd]. cbn [subprocess_result render_result].
  destruct sub as [ex | cp];
    [cbn; eexists; eexists; split; [reflexivity | right; eexists; split; reflexivity] |].
  destruct (returncode cp =? 0)%Z;
    [| cbn; eexists; eexists; split; [reflexivity | right; eexists; split; reflexivity]].
  destruct (Job.voxel_mode j), imp, vox as [ex |],
    (Job.texture_only j || Job.mesh_and_texture j), rnd as [ex' | [|]];
    cbn; eexists; eexists; (split; [reflexivity |]);
    first [ left; eexists; split; reflexivity | right; eexists; split; reflexivity ].
Qed.

(** X4. Every job ends with exactly one dialog.  Either it is the success
    dialog, and then the job's mesh is the preview; or it is the error
    dialog, and then the application object is as before the job, but for
    the cleared marker: a failed job does not replace the preview of an
    earlier one. *)
Theorem job_ends_with_one_dialog j o a :
  exists a' acts,
    exec o (run_job j) a = Some (a', acts, inr tt) /\
    ((exists msg,
        dialogs acts = [(Info, "Success", msg)] /\
        preview_mesh_path a' = Some (mesh_path_of j) /\
        preview_label a' = preview_label_after o) \/
     (exists msg,
        dialogs acts = [(Error, "Error", msg)] /\
        a' = set_processing false a)).
Proof.
  destruct (exec_run_job_outcome j o a) as (a' & acts & Hx & [(msg & Hd & ->) | Hfail]).
  - eexists; exists acts. split; [exact Hx |]. left. exists msg. auto.
  - exists a', acts. auto.
Qed.

(** X5. A job never touches the form, the queue or its listbox, and neither
    submits nor starts a job; it leaves the marker cleared. *)
Theorem run_job_leaves_form_and_queue j o a :
  exists a' acts,
    exec o (run_job j) a = Some (a', acts, inr tt) /\
    (forall T (v : tkvar T), var_get v a' = var_get v a) /\
    jobs a' = jobs a /\
    job_list a' = job_list a /\
    processing a' = false /\
    submitted acts = [] /\
    started acts = [].
Proof.
  destruct (exec_run_job j o a) as (a1 & acts1 & r & _ & Hx' & _ & _ & Hs1 & Hs2).
  destruct (exec_run_job_outcome j o a) as (a' & acts & Hx & Hcase).
  exists a', acts. split; [exact Hx |].
  assert (submitted acts = [] /\ started acts = []) as [Hsub Hst].
  { rewrite Hx in Hx'. injection Hx' as _ ->.
    unfold submitted, started in *. rewrite !flat_map_app, Hs1, Hs2.
    destruct r; split; reflexivity. }
  destruct Hcase as [(msg & _ & ->) | (msg & _ & ->)];
    (split; [intros T v; destruct v; reflexivity |]); auto.
Qed.

(** X6. [show_preview] never raises: whatever the rendering answers, it
    returns normally having set the label, to the image, to
    [3D preview not available.] or to [Preview error: ...] with the text of
    the exception. *)
Theorem show_preview_never_raises mesh_path o a :
  exec o (show_preview mesh_path) a =
    Some (set_preview_label (preview_label_after o) a,
          [Act (RenderPreview mesh_path); Act (PreviewLabelConfig (preview_label_after o))],
          inr tt).
Proof.
  unfold show_preview, preview_label_after. rewrite exec_try_except. cbn.
  destruct (render_result o) as [ex | [|]]; reflexivity.
Qed.

(** X7. A job with conversion whose tool exits with status 0 and whose
    conversion goes through performs, in this order: the read of the preset,
    the print of the command, the call of the tool, the print of its stdout,
    the import of [obj2vox], the print of the conversion, the conversion of
    the mesh to [<out_dir>/<name>_<res>.vox] at the job's resolution, the
    update of the preview, the success dialog and the clearing of the
    marker. *)
Theorem successful_voxel_job_trace j o a cp :
  subprocess_result o = inr cp ->
  returncode cp = 0%Z ->
  Job.voxel_mode j = true ->
  obj2vox_importable o = true ->
  obj2vox_result o = None ->
  let args :=
    dreamgaussian_args (Job.text j) (Job.img j) (Job.out_dir j) (Job.mesh_name j)
      true (config_preset a) in
  let vox_path :=
    os_path_join (Job.out_dir j)
      (Job.mesh_name j +++ "_" +++ str_int (Job.voxel_res j) +++ ".vox") in
  exists a' msg,
    exec o (run_job j) a =
      Some (a',
            [ Act (VarGet v_config_preset);
              Act (Print [PStr "Running DreamGaussian with:"; PList args]);
              Act (SubprocessRun args);
              Act (Print [PStr (stdout cp)]);
              Act ImportObj2vox;
              Act (Print [PStr ("Converting " +++ mesh_path_of j +++ " to " +++ vox_path
                                +++ " at resolution " +++ str_int (Job.voxel_res j)
                                +++ "...")]);
              Act (Obj2vox (mesh_path_of j) vox_path (Job.voxel_res j));
              Act (SetPreviewMeshPath (mesh_path_of j));
              Act (RenderPreview (mesh_path_of j));
              Act (PreviewLabelConfig (preview_label_after o));
              Act (MessageBox Info "Success" msg);
              Act (SetProcessing false) ],
            inr tt).
Proof.
  intros Hsub Hrc Hv Himp Hvox args vox_path. subst args vox_path.
  open_run_job. rewrite dreamgaussian_args_eq.
  unfold preview_label_after, mesh_path_of.
  destruct o as [ld sub imp vox rnd]. cbn in Hsub, Himp, Hvox |- *. subst sub imp vox.
  rewrite Hrc, Hv. cbn.
  destruct (Job.texture_only j || Job.mesh_and_texture j), rnd as [ex | [|]];
    cbn; eexists; eexists; reflexivity.
Qed.

(** X8. When the tool has exited with status 0 and the job asks for
    conversion: if [obj2vox] cannot be imported the job fails with the
    install hint and the converter is not called; if the converter raises
    the job fails with the text of its exception.  In both cases the error
    dialog is the only dialog and the preview is left as it was. *)
Theorem conversion_failure j o a cp :
  subprocess_result o = inr cp ->
  returncode cp = 0%Z ->
  Job.voxel_mode j = true ->
  (obj2vox_importable o = false ->
   exists acts,
     exec o (run_job j) a = Some (set_processing false a, acts, inr tt) /\
     dialogs acts =
       [(Error, "Error",
         "Job failed: You must install 'obj2vox' package (pip install obj2vox)!")] /\
     filter is_conversion acts = [Act ImportObj2vox]) /\
  (forall ex,
   obj2vox_importable o = true -> obj2vox_result o = Some ex ->
   exists acts,
     exec o (run_job j) a = Some (set_processing false a, acts, inr tt) /\
     dialogs acts = [(Error, "Error", "Job failed: " +++ message ex)]).
Proof.
  intros Hsub Hrc Hv.
  split; [intros Himp | intros ex Himp Hvox];
    open_run_job;
    destruct o as [ld sub imp vox rnd]; cbn in Hsub, Himp |- *; subst sub imp;
    rewrite Hrc, Hv; try (cbn in Hvox; subst vox); cbn;
    eexists; repeat split.
Qed.

(** X9. When [subprocess.run] itself raises (the interpreter cannot be
    started, say), the job fails with the text of that exception: nothing of
    the tool is printed, nothing is converted, and only the marker changes. *)
Theorem tool_cannot_be_started j o a ex :
  subprocess_result o = inl ex ->
  let args :=
    dreamgaussian_args (Job.text j) (Job.img j) (Job.out_dir j) (Job.mesh_name j)
      true (config_preset a) in
  exec o (run_job j) a =
    Some (set_processing false a,
          [ Act (VarGet v_config_preset);
            Act (Print [PStr "Running DreamGaussian with:"; PList args]);
            Act (SubprocessRun args);
            Act (MessageBox Error "Error" ("Job failed: " +++ message ex));
            Act (SetProcessing false) ],
          inr tt).
Proof.
  intros Hsub args. subst args. open_run_job. rewrite dreamgaussian_args_eq.
  rewrite Hsub. reflexivity.
Qed.

(** X10. After a job, [Open 3D Viewer] shows the job's mesh when the job
    succeeded, and does what it did before the job when the job failed. *)
Theorem viewer_after_job j o a :
  exists a' acts,
    exec o (run_job j) a = Some (a', acts, inr tt) /\
    ((exists msg, dialogs acts = [(Info, "Success", msg)]) /\
     open_preview_window a' =
       (if truthy (mesh_path_of j) then ShowMeshInWindow (mesh_path_of j)
        else NoMeshWarning "No mesh" "No mesh generated yet.")
     \/
     (exists msg, dialogs acts = [(Error, "Error", msg)]) /\
     open_preview_window a' = open_preview_window a).
Proof.
  destruct (exec_run_job_outcome j o a)
    as (a' & acts & Hx & [(msg & Hd & ->) | (msg & Hd & ->)]);
    eexists; exists acts; (split; [exact Hx |]).
  - left. split; [eauto |]. reflexivity.
  - right. split; [eauto |]. reflexivity.
Qed.

(** ** Submission and dispatch, one callback at a time *)

Lemma all_space_false_truthy s : all_space s = false -> truthy s = true.
Proof. destruct s; [discriminate | reflexivity]. Qed.

(** What an accepted submission does. *)
Lemma exec_enqueue_accepted o a n :
  all_space (text_prompt a) = false \/ all_space (image_path a) = false ->
  listdir_result o = inr n ->
  let job :=
    Job.mk (strip (text_prompt a)) (strip (image_path a)) (output_dir a)
      ("dreamasset_" +++ str_nat n)
      (mesh_only a) (texture_only a) (mesh_and_texture a)
      (voxel_mode a) (voxel_res a) in
  let row :=
    "Job " +++ str_nat (length (job_list a) + 1) +++ ": " +++ "dreamasset_" +++ str_nat n in
  let queued := set_job_list (job_list a ++ [row]) (set_jobs (jobs a ++ [job]) a) in
  let acts :=
    [ Act (VarGet v_text_prompt); Act (VarGet v_image_path); Act (VarGet v_output_dir);
      Act (ListDir (output_dir a)); Act (VarGet v_mesh_only); Act (VarGet v_texture_only);
      Act (VarGet v_mesh_and_texture); Act (VarGet v_voxel_mode); Act (VarGet v_voxel_res);
      Act (JobsPut job); Act JobListSize; Act (JobListInsertEnd row); Act GetProcessing ] in
  exec o enqueue_job a =
    if processing a then Some (queued, acts, inr tt)
    else
      match jobs a ++ [job] with
      | [] => None
      | first :: rest =>
          Some (set_job_list (remove_nth 0 (job_list a ++ [row]))
                  (set_jobs rest (set_processing true queued)),
                acts ++ [ Act JobsEmpty; Act (SetProcessing true); Act JobsGet;
                          Act (JobListDelete 0); Act (ThreadStart first) ],
                inr tt)
      end.
Proof.
  intros Hne Hld job row queued acts. subst job row queued acts.
  assert (negb (truthy (strip (text_prompt a)))
          && negb (truthy (strip (image_path a))) = false) as Hcheck.
  { rewrite !truthy_strip. destruct Hne as [-> | ->]; cbn;
      rewrite ?andb_false_r; reflexivity. }
  unfold enqueue_job, process_next_job. cbn -[truthy strip]. rewrite Hcheck.
  cbn -[truthy strip]. rewrite Hld. cbn -[truthy strip].
  destruct (processing a); cbn -[truthy strip]; [reflexivity |].
  destruct (jobs a) as [| j0 q]; reflexivity.
Qed.

(** X11. An accepted submission leaves the marker set.  While a job runs, the
    new job and its row go to the tail of the queue and of the listbox and
    nothing is started.  When no job runs, the job at the head of the queue
    (the new one only if nothing else waits) is taken off with the first
    row and started. *)
Theorem accepted_submission o a n :
  all_space (text_prompt a) = false \/ all_space (image_path a) = false ->
  listdir_result o = inr n ->
  let job :=
    Job.mk (strip (text_prompt a)) (strip (image_path a)) (output_dir a)
      ("dreamasset_" +++ str_nat n)
      (mesh_only a) (texture_only a) (mesh_and_texture a)
      (voxel_mode a) (voxel_res a) in
  let row :=
    "Job " +++ str_nat (length (job_list a) + 1) +++ ": " +++ "dreamasset_" +++ str_nat n in
  exists a' acts,
    exec o enqueue_job a = Some (a', acts, inr tt) /\
    processing a' = true /\
    (processing a = true ->
       jobs a' = jobs a ++ [job] /\ job_list a' = job_list a ++ [row] /\
       started acts = []) /\
    (processing a = false ->
       started acts = [hd job (jobs a)] /\
       jobs a' = tl (jobs a ++ [job]) /\
       job_list a' = tl (job_list a ++ [row])).
Proof.
  intros Hne Hld job row.
  rewrite (exec_enqueue_accepted o a n Hne Hld). cbn zeta. fold job row.
  destruct (processing a) eqn:Hb.
  - eexists; eexists; split; [reflexivity |]. cbn. rewrite Hb.
    repeat split; auto; discriminate.
  - destruct (jobs a) as [| j0 q]; cbn;
      eexists; eexists; (split; [reflexivity |]); cbn;
      (split; [reflexivity |]); (split; [discriminate |]); intros _;
      (split; [reflexivity |]); split; try reflexivity;
      destruct (job_list a); reflexivity.
Qed.

(** X12. When the output directory cannot be listed, an otherwise valid
    submission is lost: the exception leaves [enqueue_job], nothing is put
    in the queue or the listbox and nothing is started. *)
Theorem listing_failure_drops_submission o a ex :
  all_space (text_prompt a) = false \/ all_space (image_path a) = false ->
  listdir_result o = inl ex ->
  exec o enqueue_job a =
    Some (a,
          [ Act (VarGet v_text_prompt); Act (VarGet v_image_path);
            Act (VarGet v_output_dir); Act (ListDir (output_dir a)) ],
          inl ex).
Proof.
  intros Hne Hld.
  assert (negb (truthy (strip (text_prompt a)))
          && negb (truthy (strip (image_path a))) = false) as Hcheck.
  { rewrite !truthy_strip. destruct Hne as [-> | ->]; cbn;
      rewrite ?andb_false_r; reflexivity. }
  unfold enqueue_job. cbn -[truthy strip]. rewrite Hcheck.
  cbn -[truthy strip]. rewrite Hld. reflexivity.
Qed.

(** X13. The asset name is made from the number of entries of the output
    directory alone.  Two submissions to the same directory that see the
    same number of entries, whatever else differs, get the same name and so
    the same mesh path. *)
Theorem same_listing_same_name o1 o2 a1 a2 n :
  all_space (text_prompt a1) = false \/ all_space (image_path a1) = false ->
  all_space (text_prompt a2) = false \/ all_space (image_path a2) = false ->
  listdir_result o1 = inr n -> listdir_result o2 = inr n ->
  output_dir a1 = output_dir a2 ->
  exists a1' acts1 j1 a2' acts2 j2,
    exec o1 enqueue_job a1 = Some (a1', acts1, inr tt) /\ submitted acts1 = [j1] /\
    exec o2 enqueue_job a2 = Some (a2', acts2, inr tt) /\ submitted acts2 = [j2] /\
    Job.mesh_name j1 = "dreamasset_" +++ str_nat n /\
    Job.mesh_name j2 = Job.mesh_name j1 /\
    mesh_path_of j2 = mesh_path_of j1.
Proof.
  intros H1 H2 Hl1 Hl2 Hdir.
  pose proof (exec_enqueue_accepted o1 a1 n H1 Hl1) as E1.
  pose proof (exec_enqueue_accepted o2 a2 n H2 Hl2) as E2.
  cbn zeta in E1, E2. rewrite E1, E2. unfold mesh_path_of.
  destruct (processing a1), (processing a2);
    try destruct (jobs a1); try destruct (jobs a2); cbn;
    do 6 eexists; repeat split; rewrite Hdir; reflexivity.
Qed.

(** X14. [poll_queue] never blocks and always ends by re-arming the timer.
    While a job runs, or when nothing waits, that is all it does.  When no
    job runs and a job waits, it sets the marker, takes the job at the head
    of the queue and starts it. *)
Theorem poll_queue_dispatches_or_waits o a :
  exists a' acts,
    exec o poll_queue a = Some (a', acts ++ [Act (After 200)], inr tt) /\
    (processing a = true \/ jobs a = [] -> a' = a /\ started acts = []) /\
    (forall next rest,
       processing a = false -> jobs a = next :: rest ->
       started acts = [next] /\ jobs a' = rest /\ processing a' = true /\
       job_list a' = tl (job_list a)).
Proof.
  unfold poll_queue, process_next_job. cbn.
  destruct (processing a) eqn:Hb; cbn.
  - exists a, [Act GetProcessing]. split; [reflexivity |].
    split; [auto | discriminate].
  - destruct (jobs a) as [| j q] eqn:Hq; cbn.
    + exists a, [Act GetProcessing; Act JobsEmpty]. split; [reflexivity |].
      split; [auto | discriminate].
    + rewrite Hq. cbn. rewrite Hq. cbn.
      eexists.
      exists [Act GetProcessing; Act JobsEmpty; Act JobsEmpty; Act (SetProcessing true);
              Act JobsGet; Act (JobListDelete 0); Act (ThreadStart j)].
      split; [reflexivity |]. split.
      * intros [H | H]; discriminate.
      * intros next rest _ H. injection H as <- <-. cbn.
        repeat split.
Qed.

(** X15. [process_next_job] never blocks in [Queue.get].  On an empty queue
    it returns at once and the marker is not set; otherwise it sets the
    marker, takes the head of the queue and the first row of the listbox,
    and starts the thread of that job. *)
Theorem process_next_job_guards_the_get o a :
  exec o process_next_job a =
    match jobs a with
    | [] => Some (a, [Act JobsEmpty], inr tt)
    | job :: rest =>
        Some (set_job_list (tl (job_list a)) (set_jobs rest (set_processing true a)),
              [ Act JobsEmpty; Act (SetProcessing true); Act JobsGet;
                Act (JobListDelete 0); Act (ThreadStart job) ],
              inr tt)
    end.
Proof.
  unfold process_next_job. cbn.
  destruct (jobs a) as [| job rest] eqn:Hq; cbn; [reflexivity |].
  rewrite Hq. cbn. destruct (job_list a); reflexivity.
Qed.

(** X16. Cancelling a file dialog changes nothing.  An image and an output
    directory chosen in the dialogs are the ones of the next job: the
    directory is the one listed for the name, the image path is stored
    stripped, and the text prompt is the one of the form. *)
Theorem dialog_choices_reach_the_job o a image dir n :
  browse_image "" a = a /\
  browse_output "" a = a /\
  (all_space image = false -> dir <> "" -> listdir_result o = inr n ->
   exists a' acts j,
     exec o enqueue_job (browse_output dir (browse_image image a))
       = Some (a', acts, inr tt) /\
     submitted acts = [j] /\
     Job.img j = strip image /\
     Job.out_dir j = dir /\
     Job.text j = strip (text_prompt a) /\
     Job.mesh_name j = "dreamasset_" +++ str_nat n /\
     In (Act (ListDir dir)) acts).
Proof.
  split; [reflexivity |]. split; [reflexivity |].
  intros Himg Hdir Hld.
  unfold browse_image, browse_output.
  rewrite (all_space_false_truthy _ Himg).
  apply truthy_true in Hdir. rewrite Hdir.
  set (a0 := var_set v_output_dir dir (var_set v_image_path image a)).
  assert (all_space (text_prompt a0) = false \/ all_space (image_path a0) = false)
    as Hne by (right; exact Himg).
  rewrite (exec_enqueue_accepted o a0 n Hne Hld). cbn zeta.
  destruct (processing a0); [| destruct (jobs a0)]; cbn;
    do 3 eexists; repeat split; cbn; auto 10.
Qed.

(** ** Jobs, command lines and the preview, at any time *)

Ltac always_walk :=
  repeat (cbn -[dreamgaussian_args Z.eqb truthy strip];
          match goal with
          | |- _ /\ _ => split
          | |- forall _, _ => intro
          | |- True => exact I
          | |- context [if ?c then _ else _] => destruct c eqn:?
          | |- context [match ?x with inl _ => _ | inr _ => _ end] => destruct x
          | |- context [match ?x with Some _ => _ | None => _ end] => destruct x
          end).

Lemma always_enqueue_job : always (@main_may) enqueue_job.
Proof.
  unfold enqueue_job, process_next_job. always_walk.
  unfold valid_job. cbn [Job.text Job.img].
  match goal with H : _ && _ = false |- _ => apply andb_false_iff in H; destruct H as [H | H];
    apply negb_false_iff in H; rewrite H end; auto using orb_true_r.
Qed.

Lemma always_poll_queue : always (@main_may) poll_queue.
Proof. unfold poll_queue, process_next_job. always_walk. Qed.

Lemma always_run_job j : always (@worker_may _ j) (run_job j).
Proof.
  unfold run_job, job_boundary, try_finally, try_except, run_job_body, pipeline,
    run_dreamgaussian, obj_to_vox, show_preview.
  always_walk; try (eexists; reflexivity); reflexivity.
Qed.

Lemma subprocess_calls_snoc l {R} (e : eff R) :
  subprocess_calls (l ++ [Act e]) =
  subprocess_calls l ++ match e with SubprocessRun args => [args] | _ => [] end.
Proof.
  unfold subprocess_calls. rewrite flat_map_app. cbn. rewrite app_nil_r. reflexivity.
Qed.

(** Only [self.preview_mesh_path = p] changes the preview path. *)
Lemma perform_preview {R} (e : eff R) o a a' r :
  perform e o a = Some (a', r) ->
  preview_mesh_path a' =
    match e with SetPreviewMeshPath p => Some p | _ => preview_mesh_path a end.
Proof.
  destruct e; cbn; try (intros H; injection H as <- <-; reflexivity).
  destruct (jobs a); [discriminate |]. intros H; injection H as <- <-. reflexivity.
Qed.

Lemma preview_var_set {T} (v : tkvar T) x a :
  preview_mesh_path (var_set v x a) = preview_mesh_path a.
Proof. destruct v; reflexivity. Qed.

Lemma Forall_settle {P : Thread -> Prop} i t l :
  Forall P l -> P t -> Forall P (settle i t l).
Proof.
  intros Hl Ht. unfold settle. destruct (idle (th_code t)).
  - revert i. induction Hl as [| x l Hx Hl IH]; intros [| i]; cbn; auto.
  - revert i. induction Hl as [| x l Hx Hl IH]; intros [| i]; cbn; auto.
Qed.

Lemma started_in_submitted s j :
  inv s -> In j (started (log s)) -> In j (submitted (log s)).
Proof.
  intros (_ & (ph & _ & _ & Hfifo) & _) Hj. rewrite Hfifo. apply in_or_app. auto.
Qed.

Lemma thread_job_started s t :
  inv s -> In t (threads s) -> In (th_job t) (started (log s)).
Proof.
  intros (_ & _ & Hlast) Ht. destruct (Hlast t Ht) as [before ->].
  apply in_or_app. right. left. reflexivity.
Qed.

Lemma inv_io_init : inv_io init.
Proof.
  unfold inv_io. cbn. repeat split; auto.
Qed.

(** Every input preserves [inv_io]. *)
Lemma inv_io_handle s inp : inv s -> inv_io s -> inv_io (handle s inp).
Proof.
  intros Hinv Hio. pose proof Hio as (Hm & Hts & Hval & Hcalls & Hprev).
  destruct inp as [T v x | | | o | i o]; cbn [handle].
  - (* Edit *)
    destruct (idle (main s)); [| exact Hio].
    split; [| split; [| split; [| split]]]; cbn [app main threads log]; auto.
    rewrite preview_var_set. exact Hprev.
  - (* ClickGenerate *)
    destruct (idle (main s)); [| exact Hio].
    split; [| split; [| split; [| split]]]; cbn [app main threads log];
      auto using always_enqueue_job.
  - (* Timer *)
    destruct (idle (main s)); [| exact Hio].
    split; [| split; [| split; [| split]]]; cbn [app main threads log];
      auto using always_poll_queue.
  - (* MainStep *)
    unfold step_code.
    destruct (main s) as [x | R e k] eqn:Hmain; [exact Hio |].
    destruct (perform e o (app s)) as [[a' r] |] eqn:Hp; [| exact Hio].
    destruct Hm as [He Hk].
    assert (forall j, In j (started (log s)) -> In j (started (log s ++ [Act e]))) as Hmono.
    { intros j Hj. rewrite started_snoc. apply in_or_app. auto. }
    split; [| split; [| split; [| split]]]; cbn [app main threads log].
    + apply Hk.
    + apply Forall_app. split; [exact Hts |].
      destruct e; cbn [spawned]; constructor; cbn [th_job th_code];
        auto using always_run_job.
    + rewrite submitted_snoc. apply Forall_app. split; [exact Hval |].
      destruct e; cbn [put_of]; constructor; auto.
    + rewrite subprocess_calls_snoc.
      assert (match e with SubprocessRun args => [args] | _ => [] end = []) as ->
        by (destruct e; cbn in He; try contradiction; reflexivity).
      rewrite app_nil_r.
      eapply Forall_impl; [| exact Hcalls].
      intros args (j & preset & Hj & ->). eauto.
    + rewrite (perform_preview _ _ _ _ _ Hp).
      assert (match e with SetPreviewMeshPath p => Some p | _ => preview_mesh_path (app s) end
              = preview_mesh_path (app s)) as ->
        by (destruct e; cbn in He; try contradiction; reflexivity).
      destruct Hprev as [Hn | (j & Hj & Hp')]; [auto | right; eauto].
  - (* WorkerStep *)
    destruct (nth_error (threads s) i) as [t |] eqn:Hn; [| exact Hio].
    unfold step_code.
    destruct (th_code t) as [x | R e k] eqn:Ht; [exact Hio |].
    destruct (perform e o (app s)) as [[a' r] |] eqn:Hp; [| exact Hio].
    pose proof (nth_error_In _ _ Hn) as Hin.
    pose proof (thread_job_started _ _ Hinv Hin) as Hjob.
    assert (always (@worker_may _ (th_job t)) (Vis e k)) as [He Hk].
    { rewrite <- Ht. rewrite Forall_forall in Hts. apply Hts, Hin. }
    assert (spawned e = [] /\ put_of e = [] /\ start_of e = []) as (Hsp & Hput & Hst).
    { destruct e; cbn in He; try contradiction; auto. }
    split; [| split; [| split; [| split]]]; cbn [app main threads log].
    + exact Hm.
    + rewrite Hsp, app_nil_r. apply Forall_settle; [exact Hts |]. apply Hk.
    + rewrite submitted_snoc, Hput. rewrite app_nil_r. exact Hval.
    + rewrite subprocess_calls_snoc, started_snoc, Hst, app_nil_r.
      apply Forall_app. split; [exact Hcalls |].
      destruct e; cbn in He |- *; constructor; auto.
      destruct He as [preset ->]. eauto.
    + rewrite (perform_preview _ _ _ _ _ Hp), started_snoc, Hst, app_nil_r.
      destruct e; try exact Hprev. cbn in He. subst p. right. eauto.
Qed.

Lemma inv_io_run inputs : forall s, inv s -> inv_io s -> inv_io (run s inputs).
Proof.
  induction inputs as [| inp inputs IH]; intros s Hs Hio; cbn; [exact Hio |].
  apply IH; [apply inv_handle, Hs | apply inv_io_handle; assumption].
Qed.

Lemma reachable_inv_io (inputs : list Input) : inv_io (run init inputs).
Proof. apply inv_io_run; [apply inv_init | apply inv_io_init]. Qed.

Lemma job_command_has_prompt j preset :
  valid_job j = true ->
  In "--text" (job_command j preset) \/ In "--image" (job_command j preset).
Proof.
  unfold valid_job, job_command. intros Hv. rewrite dreamgaussian_args_eq.
  apply orb_true_iff in Hv. destruct Hv as [Ht | Hi].
  - left. rewrite Ht. apply in_or_app. right. apply in_or_app. left. left. reflexivity.
  - right. rewrite Hi. apply in_or_app. right. apply in_or_app. right. left. reflexivity.
Qed.

(** X17. Whatever the user does and however the threads are scheduled,
    every job that has been submitted, and so every job waiting in the queue
    and every job a worker runs, has a text prompt or an image prompt. *)
Theorem every_job_has_a_prompt (inputs : list Input) :
  let s := run init inputs in
  Forall (fun j => valid_job j = true) (submitted (log s)) /\
  Forall (fun j => valid_job j = true) (jobs (app s)) /\
  Forall (fun t => valid_job (th_job t) = true) (threads s).
Proof.
  intros s.
  assert (inv s) as Hinv by apply inv_run, inv_init.
  pose proof (reachable_inv_io inputs) as (_ & _ & Hval & _). fold s in Hval.
  rewrite Forall_forall in Hval.
  split; [apply Forall_forall, Hval |]. split; apply Forall_forall.
  - intros j Hj. apply Hval.
    destruct Hinv as (_ & (ph & _ & _ & Hfifo) & _). rewrite Hfifo.
    apply in_or_app. right. apply in_or_app. auto.
  - intros t Ht. apply Hval, started_in_submitted; [exact Hinv |].
    apply thread_job_started; assumption.
Qed.

(** X18. The generation tool is never called without a prompt: every
    command line it is called with is the command line of a job that was
    submitted with a prompt, under some preset, and carries [--text] or
    [--image]. *)
Theorem tool_always_gets_a_prompt (inputs : list Input) :
  let s := run init inputs in
  Forall (fun args =>
            exists j preset,
              In j (submitted (log s)) /\ valid_job j = true /\
              args = job_command j preset /\
              (In "--text" args \/ In "--image" args))
    (subprocess_calls (log s)).
Proof.
  intros s.
  assert (inv s) as Hinv by apply inv_run, inv_init.
  pose proof (reachable_inv_io inputs) as (_ & _ & Hval & Hcalls & _).
  fold s in Hval, Hcalls. rewrite Forall_forall in Hval.
  eapply Forall_impl; [| exact Hcalls].
  intros args (j & preset & Hj & ->).
  pose proof (started_in_submitted _ _ Hinv Hj) as Hsub.
  exists j, preset. repeat split; auto using job_command_has_prompt.
Qed.

(** X19. [Open 3D Viewer] either shows the warning [No mesh generated yet.]
    or opens the mesh of a job that has been started; until a job has been
    started it shows the warning. *)
Theorem viewer_opens_a_started_mesh (inputs : list Input) :
  let s := run init inputs in
  match open_preview_window (app s) with
  | NoMeshWarning title msg => title = "No mesh" /\ msg = "No mesh generated yet."
  | ShowMeshInWindow mesh_path =>
      exists j, In j (started (log s)) /\ mesh_path = mesh_path_of j
  end /\
  (started (log s) = [] ->
   open_preview_window (app s) = NoMeshWarning "No mesh" "No mesh generated yet.").
Proof.
  intros s.
  pose proof (reachable_inv_io inputs) as (_ & _ & _ & _ & Hprev). fold s in Hprev.
  unfold open_preview_window.
  destruct Hprev as [-> | (j & Hj & ->)]; [auto |].
  split.
  - destruct (truthy (mesh_path_of j)); eauto.
  - intros Hnone. rewrite Hnone in Hj. destruct Hj.
Qed.

(** ** The listbox follows the queue *)

Lemma job_list_var_set {T} (v : tkvar T) x a : job_list (var_set v x a) = job_list a.
Proof. destruct v; reflexivity. Qed.

Lemma rows_match_snoc rows q row j :
  rows_match rows q -> row_names row j -> rows_match (rows ++ [row]) (q ++ [j]).
Proof.
  intros Hm Hr. apply Forall2_app; [exact Hm |]. constructor; [exact Hr | constructor].
Qed.

(** One effect of the main thread keeps the listbox in step with the queue,
    or one step behind while it owes a row or a deletion. *)
Lemma rows_main_step m {R} (e : eff R) (k : R -> M unit) o a a' r :
  in_step m (Vis e k) -> rows_cond m (job_list a) (jobs a) ->
  perform e o a = Some (a', r) ->
  exists m', in_step m' (k r) /\ rows_cond m' (job_list a') (jobs a').
Proof.
  intros Hs Hc Hp.
  destruct e; cbn in Hp; try (injection Hp as <- <-);
    try solve [ exists m; split; [apply Hs | exact Hc] ].
  - (* JobsPut *)
    destruct m; cbn in Hs; try contradiction.
    exists (OwesRow j). split; [apply Hs |]. cbn. eauto.
  - (* JobsGet *)
    destruct m; cbn in Hs; try contradiction.
    destruct (jobs a) as [| j q] eqn:Hq; [discriminate |].
    injection Hp as <- <-.
    exists OwesDelete. split; [apply Hs |]. cbn in Hc |- *.
    inversion Hc as [| row j' rows0 q' Hrow Hrest]; subst. eauto.
  - (* JobListInsertEnd *)
    destruct m; cbn in Hs; try contradiction.
    destruct Hs as [Hrow Hk], Hc as (q0 & Hq & Hm).
    exists InStep. split; [apply Hk |]. cbn. rewrite Hq.
    apply rows_match_snoc; assumption.
  - (* JobListDelete *)
    destruct m; cbn in Hs; try contradiction.
    destruct Hs as [-> Hk], Hc as (row0 & rows0 & Hrows & Hm).
    exists InStep. split; [apply Hk |]. cbn. rewrite Hrows. exact Hm.
Qed.

(** A worker leaves the queue and its listbox alone. *)
Lemma worker_may_frame j {R} (e : eff R) o a a' r :
  worker_may j e -> perform e o a = Some (a', r) ->
  jobs a' = jobs a /\ job_list a' = job_list a.
Proof.
  intros He Hp.
  destruct e; cbn in He; try contradiction; cbn in Hp; injection Hp as <- <-; auto.
Qed.

Ltac step_walk :=
  repeat (cbn -[truthy strip];
          match goal with
          | |- _ /\ _ => split
          | |- forall _, _ => intro
          | |- True => exact I
          | |- row_names _ _ => eexists; reflexivity
          | |- _ = _ => reflexivity
          | |- context [if ?c then _ else _] => destruct c
          | |- context [match ?x with inl _ => _ | inr _ => _ end] => destruct x
          end).

Lemma in_step_enqueue_job : in_step InStep enqueue_job.
Proof. unfold enqueue_job, process_next_job. step_walk. Qed.

Lemma in_step_poll_queue : in_step InStep poll_queue.
Proof. unfold poll_queue, process_next_job. step_walk. Qed.

Lemma in_step_idle {A} m (p : prog A) : idle p = true -> in_step m p -> m = InStep.
Proof. destruct p; [| discriminate]. destruct m; cbn; intros _ H; auto; contradiction. Qed.

Lemma inv_rows_init : inv_rows init.
Proof. exists InStep. cbn. split; [exact I | constructor]. Qed.

(** Every input preserves [inv_rows]. *)
Lemma inv_rows_handle s inp : inv_io s -> inv_rows s -> inv_rows (handle s inp).
Proof.
  intros (_ & Hts & _) Hrows. pose proof Hrows as (m & Hs & Hc).
  destruct inp as [T v x | | | o | i o]; cbn [handle].
  - (* Edit *)
    destruct (idle (main s)); [| exact Hrows].
    exists m. cbn [app main]. rewrite job_list_var_set, jobs_var_set. auto.
  - (* ClickGenerate *)
    destruct (idle (main s)) eqn:Hi; [| exact Hrows].
    rewrite (in_step_idle _ _ Hi Hs) in Hc.
    exists InStep. cbn [app main]. auto using in_step_enqueue_job.
  - (* Timer *)
    destruct (idle (main s)) eqn:Hi; [| exact Hrows].
    rewrite (in_step_idle _ _ Hi Hs) in Hc.
    exists InStep. cbn [app main]. auto using in_step_poll_queue.
  - (* MainStep *)
    unfold step_code.
    destruct (main s) as [x | R e k] eqn:Hmain; [exact Hrows |].
    destruct (perform e o (app s)) as [[a' r] |] eqn:Hp; [| exact Hrows].
    destruct (rows_main_step _ _ _ _ _ _ _ Hs Hc Hp) as (m' & Hs' & Hc').
    exists m'. cbn [app main]. auto.
  - (* WorkerStep *)
    destruct (nth_error (threads s) i) as [t |] eqn:Hn; [| exact Hrows].
    unfold step_code.
    destruct (th_code t) as [x | R e k] eqn:Ht; [exact Hrows |].
    destruct (perform e o (app s)) as [[a' r] |] eqn:Hp; [| exact Hrows].
    assert (always (@worker_may _ (th_job t)) (Vis e k)) as [He _].
    { rewrite <- Ht. rewrite Forall_forall in Hts. apply Hts. eapply nth_error_In; eauto. }
    destruct (worker_may_frame _ _ _ _ _ _ He Hp) as [Hj Hl].
    exists m. cbn [app main]. rewrite Hj, Hl. auto.
Qed.

Lemma inv_rows_run inputs :
  forall s, inv s -> inv_io s -> inv_rows s -> inv_rows (run s inputs).
Proof.
  induction inputs as [| inp inputs IH]; intros s Hs Hio Hr; cbn; [exact Hr |].
  apply IH; [apply inv_handle, Hs | apply inv_io_handle; assumption |
             apply inv_rows_handle; assumption].
Qed.

(** X20. Between callbacks, the listbox has one row for each job waiting in
    the queue, in the same order, and each row ends with the asset name of
    its job. *)
Theorem listbox_mirrors_queue (inputs : list Input) :
  let s := run init inputs in
  idle (main s) = true ->
  Forall2 (fun row j => exists n, row = "Job " +++ str_nat n +++ ": " +++ Job.mesh_name j)
    (job_list (app s)) (jobs (app s)) /\
  length (job_list (app s)) = length (jobs (app s)).
Proof.
  intros s Hi.
  assert (inv_rows s) as (m & Hs & Hc)
    by (apply inv_rows_run; [apply inv_init | apply inv_io_init | apply inv_rows_init]).
  rewrite (in_step_idle _ _ Hi Hs) in Hc. cbn in Hc.
  split; [exact Hc |]. eapply Forall2_length; eauto.
Qed.

(** ** From the form to the command line *)

(** X21. The command line of an accepted submission, under whatever preset
    is selected when the job runs: the interpreter and the script, the
    config, the output directory of the form, the name made from the
    directory listing, [--hd] (never [--low]), then [--text] with the
    stripped text unless the text prompt is blank, then [--image] with the
    stripped path unless the image prompt is blank. *)
Theorem form_to_command_line o a n :
  all_space (text_prompt a) = false \/ all_space (image_path a) = false ->
  listdir_result o = inr n ->
  exists a' acts j,
    exec o enqueue_job a = Some (a', acts, inr tt) /\
    submitted acts = [j] /\
    forall preset,
      job_command j preset =
        [ sys_executable; DREAMGAUSSIAN_SCRIPT;
          "--config";
          select_config preset (strip (text_prompt a)) (strip (image_path a));
          "--output_dir"; output_dir a;
          "--name"; "dreamasset_" +++ str_nat n;
          "--hd" ]
        ++ (if all_space (text_prompt a) then [] else ["--text"; strip (text_prompt a)])
        ++ (if all_space (image_path a) then [] else ["--image"; strip (image_path a)]).
Proof.
  intros Hne Hld.
  rewrite (exec_enqueue_accepted o a n Hne Hld). cbn zeta.
  assert (forall j, j = Job.mk (strip (text_prompt a)) (strip (image_path a)) (output_dir a)
                        ("dreamasset_" +++ str_nat n) (mesh_only a) (texture_only a)
                        (mesh_and_texture a) (voxel_mode a) (voxel_res a) ->
          forall preset,
            job_command j preset =
              [ sys_executable; DREAMGAUSSIAN_SCRIPT;
                "--config";
                select_config preset (strip (text_prompt a)) (strip (image_path a));
                "--output_dir"; output_dir a;
                "--name"; "dreamasset_" +++ str_nat n;
                "--hd" ]
              ++ (if all_space (text_prompt a) then [] else ["--text"; strip (text_prompt a)])
              ++ (if all_space (image_path a) then [] else ["--image"; strip (image_path a)]))
    as Hcmd.
  { intros j -> preset. unfold job_command. cbn [Job.text Job.img Job.out_dir Job.mesh_name].
    rewrite dreamgaussian_args_eq, !truthy_strip.
    destruct (all_space (text_prompt a)), (all_space (image_path a)); reflexivity. }
  destruct (processing a); [| destruct (jobs a)]; cbn;
    do 3 eexists; (split; [reflexivity |]); (split; [reflexivity |]);
    apply Hcmd; reflexivity.
Qed.

(** X22. Of the presets the form offers, every one but ["auto"] overrides
    the automatic choice, whatever the prompts; and the automatic choice is
    always one of the offered files. *)
Theorem offered_presets_override :
  Forall (fun preset =>
            preset = "auto" \/
            forall text image,
              select_config preset text image = os_path_join config_dir preset)
    config_options /\
  (forall text image,
     exists preset,
       In preset config_options /\ preset <> "auto" /\
       select_config "auto" text image = os_path_join config_dir preset).
Proof.
  split.
  - unfold config_options.
    repeat (constructor; [first [left; reflexivity | right; reflexivity] |]).
    constructor.
  - intros text image. unfold select_config. cbn [truthy String.eqb negb andb].
    change (truthy "auto" && negb ("auto" =? "auto")) with false. cbn iota.
    destruct (truthy text), (truthy image); cbn;
      [ exists "imagedream.yaml" | exists "text.yaml" | exists "image.yaml"
      | exists "image.yaml" ];
      (split; [cbn; auto 10 |]); (split; [discriminate | reflexivity]).
Qed.

End Properties.

(** * Worked examples on the concrete platform *)

Section Examples.

Local Existing Instance Demo.posix.

(** C1 at work: two submissions, the second while the first runs. *)
Example two_jobs_in_order :
  let s := run init (Demo.submit_two ++ Demo.then_run_both) in
  map Job.img (submitted (log s)) = [""; "/tmp/cat.png"] /\
  map Job.img (started (log s)) = [""; "/tmp/cat.png"] /\
  map Job.img (map th_job (threads s)) = ["/tmp/cat.png"] /\
  map Job.img (started (log (run init Demo.submit_two))) = [""] /\
  map Job.img (jobs (app (run init Demo.submit_two))) = ["/tmp/cat.png"].
Proof. vm_compute. repeat split. Qed.

(** C2 at work: the scenario with both prompts and the preset [text.yaml],
    and the three automatic choices. *)
Lemma config_resolution_witness :
  In "text.yaml" config_options /\ In "auto" config_options /\
  select_config "text.yaml" "a red chair" "/tmp/cat.png" = "/work/configs/text.yaml" /\
  select_config "auto" "a red chair" "/tmp/cat.png" = "/work/configs/imagedream.yaml" /\
  select_config "auto" "a red chair" "" = "/work/configs/text.yaml" /\
  select_config "auto" "" "/tmp/cat.png" = "/work/configs/image.yaml".
Proof.
  assert (In "text.yaml" config_options) as Hpreset by (do 4 right; left; reflexivity).
  assert (In "auto" config_options) as Hauto by (left; reflexivity).
  pose proof (config_resolution "text.yaml" "a red chair" "/tmp/cat.png" Hpreset)
    as (Hp & _).
  pose proof (config_resolution "auto" "a red chair" "/tmp/cat.png" Hauto) as (_ & Hb & _).
  pose proof (config_resolution "auto" "a red chair" "" Hauto) as (_ & Ht & _).
  pose proof (config_resolution "auto" "" "/tmp/cat.png" Hauto) as (_ & Hi & _).
  split; [exact Hpreset |]. split; [exact Hauto |].
  split; [apply Hp; discriminate |].
  split; [apply Hb; [reflexivity | discriminate | discriminate] |].
  split; [apply Ht; [reflexivity | discriminate | reflexivity] |].
  apply Hi; [reflexivity | reflexivity | discriminate].
Defined.

(** C3, the claim as stated fails: the tool's stderr is not in the dialog. *)
Lemma stderr_not_in_dialog :
  stderr (mkCompleted 1 "" "CUDA out of memory") = "CUDA out of memory" /\
  exists a' acts,
    exec Demo.tool_fails (run_job Demo.chair) init_app = Some (a', acts, inr tt) /\
    dialogs acts = [(Error, "Error", "Job failed: DreamGaussian failed!")] /\
    contains "Job failed: DreamGaussian failed!" "CUDA out of memory" = false.
Proof. split; [reflexivity |]. eexists; eexists. vm_compute. repeat split. Qed.

Lemma generation_failure_witness :
  subprocess_result Demo.tool_fails = inr (mkCompleted 1 "" "CUDA out of memory") /\
  exists a' acts,
    exec Demo.tool_fails (run_job Demo.chair) init_app = Some (a', acts, inr tt) /\
    dialogs acts = [(Error, "Error", "Job failed: DreamGaussian failed!")] /\
    In [PStr "CUDA out of memory"] (printed acts) /\
    filter is_conversion acts = [] /\
    preview_mesh_path a' = None /\
    preview_label a' = LabelText "No preview yet.".
Proof.
  split; [reflexivity |].
  apply (generation_failure Demo.chair Demo.tool_fails init_app
           (mkCompleted 1 "" "CUDA out of memory"));
    [reflexivity | discriminate].
Defined.

(** C4, the claim as stated fails: job B is submitted with the preset
    [text.yaml]; the user selects [auto] before B starts, and B's tool is
    called with the automatic config, not with [text.yaml]. *)
Lemma preset_changed_before_start :
  let queued := run init Demo.submit_two in
  let final := run init (Demo.submit_two ++ Demo.then_run_both) in
  config_preset (app queued) = "text.yaml" /\
  jobs (app queued)
    = [Job.mk "a red chair" "/tmp/cat.png" "/work" "dreamasset_3"
         true false true true 256] /\
  nth 1 (subprocess_calls (log final)) []
    = [ "/usr/bin/python3"; "/work/run_dreamgaussian.py";
        "--config"; "/work/configs/imagedream.yaml";
        "--output_dir"; "/work"; "--name"; "dreamasset_3"; "--hd";
        "--text"; "a red chair"; "--image"; "/tmp/cat.png" ] /\
  nth 1 (subprocess_calls (log final)) []
    <> dreamgaussian_args "a red chair" "/tmp/cat.png" "/work" "dreamasset_3"
         true "text.yaml".
Proof. vm_compute. repeat split. discriminate. Qed.

Lemma empty_submission_rejected_witness :
  exists a' acts,
    exec Demo.tool_ok enqueue_job init_app = Some (a', acts, inr tt) /\
    a' = init_app /\
    length (jobs a') = length (jobs init_app) /\
    submitted acts = [] /\
    started acts = [] /\
    dialogs acts = [(Warning, "No prompt", "Provide text and/or image prompt.")].
Proof.
  apply (empty_submission_rejected Demo.tool_ok init_app); reflexivity.
Defined.

Lemma result_paths_witness :
  exists a' acts,
    exec Demo.tool_ok (run_job Demo.cat) init_app = Some (a', acts, inr tt) /\
    dialogs acts =
      [(Info, "Success",
        "Generation complete!" +++ nl +++ "Files:" +++ nl
        +++ join_lines ["/work/dreamasset_3.obj"; "/work/dreamasset_3.png";
                        "/work/dreamasset_3_256.vox"])] /\
    preview_mesh_path a' = Some "/work/dreamasset_3.obj".
Proof.
  exact (result_paths Demo.cat Demo.tool_ok init_app (mkCompleted 0 "done" "")
           eq_refl eq_refl (fun _ => conj eq_refl eq_refl)).
Defined.

Lemma no_conversion_without_voxel_witness :
  Job.voxel_mode Demo.chair = false /\
  conversion_free (run_job Demo.chair) /\
  forall o a, exists a' acts,
    exec o (run_job Demo.chair) a = Some (a', acts, inr tt) /\
    filter is_conversion acts = [].
Proof.
  split; [reflexivity |].
  apply (no_conversion_without_voxel Demo.chair). reflexivity.
Defined.

Lemma prompts_stripped_witness :
  (exists acts,
     exec Demo.tool_ok enqueue_job Demo.blank = Some (Demo.blank, acts, inr tt) /\
     submitted acts = [] /\
     dialogs acts = [(Warning, "No prompt", "Provide text and/or image prompt.")]) /\
  (exists a' acts,
     exec Demo.tool_ok enqueue_job Demo.padded = Some (a', acts, inr tt) /\
     submitted acts
       = [Job.mk "a red chair" "" "/work" "dreamasset_3" true false true true 256]) /\
  strip (text_prompt Demo.accented) = utf8 Demo.voila /\
  all_space (text_prompt Demo.accented) = false /\
  all_space (text_prompt Demo.blank) = true.
Proof.
  pose proof (prompts_stripped Demo.tool_ok Demo.blank) as (Hblank & _ & Hpoints).
  pose proof (prompts_stripped Demo.tool_ok Demo.padded) as (_ & Hpadded & _).
  pose proof (prompts_stripped Demo.tool_ok Demo.accented) as (_ & _ & Hword).
  split; [| split; [| split; [| split]]].
  - destruct (Hblank eq_refl eq_refl) as (acts & Hx & _ & Hs & Hd).
    exists acts. auto.
  - apply (Hpadded 3%nat); [left; reflexivity | reflexivity].
  - apply (Hword ([0x2003]%N ++ Demo.voila ++ [0x3000]%N) []);
      [repeat constructor | constructor | reflexivity | reflexivity].
  - apply (Hword ([0x2003]%N ++ Demo.voila ++ [0x3000]%N) []);
      [repeat constructor | constructor | reflexivity | reflexivity].
  - apply (Hpoints [0x3000; 0x20; 0xA0]%N [0x09; 0x2003]%N);
      [repeat constructor | repeat constructor | reflexivity | reflexivity].
Defined.

(** ** The further properties at work *)

Lemma queue_is_what_was_not_started_witness :
  idle (main (run init Demo.submit_two)) = true /\
  submitted (log (run init Demo.submit_two))
    = started (log (run init Demo.submit_two)) ++ jobs (app (run init Demo.submit_two)).
Proof.
  split; [vm_compute; reflexivity |].
  apply (queue_is_what_was_not_started Demo.submit_two). vm_compute. reflexivity.
Defined.

Lemma listbox_mirrors_queue_witness :
  job_list (app (run init Demo.submit_two)) = ["Job 1: dreamasset_3"] /\
  Forall2 (fun row j => exists n, row = "Job " +++ str_nat n +++ ": " +++ Job.mesh_name j)
    (job_list (app (run init Demo.submit_two))) (jobs (app (run init Demo.submit_two))) /\
  length (job_list (app (run init Demo.submit_two)))
    = length (jobs (app (run init Demo.submit_two))).
Proof.
  split; [vm_compute; reflexivity |].
  apply (listbox_mirrors_queue Demo.submit_two). vm_compute. reflexivity.
Defined.

Lemma successful_voxel_job_trace_witness :
  exists a' msg,
    exec Demo.tool_ok (run_job Demo.cat) init_app =
      Some (a',
            [ Act (VarGet v_config_preset);
              Act (Print [PStr "Running DreamGaussian with:";
                          PList (job_command Demo.cat "auto")]);
              Act (SubprocessRun (job_command Demo.cat "auto"));
              Act (Print [PStr "done"]);
              Act ImportObj2vox;
              Act (Print [PStr "Converting /work/dreamasset_3.obj to /work/dreamasset_3_256.vox at resolution 256..."]);
              Act (Obj2vox "/work/dreamasset_3.obj" "/work/dreamasset_3_256.vox" 256);
              Act (SetPreviewMeshPath "/work/dreamasset_3.obj");
              Act (RenderPreview "/work/dreamasset_3.obj");
              Act (PreviewLabelConfig LabelImage);
              Act (MessageBox Info "Success" msg);
              Act (SetProcessing false) ],
            inr tt).
Proof.
  exact (successful_voxel_job_trace Demo.cat Demo.tool_ok init_app
           (mkCompleted 0 "done" "") eq_refl eq_refl eq_refl eq_refl eq_refl).
Defined.

Lemma conversion_failure_witness :
  (exists acts,
     exec Demo.no_converter (run_job Demo.cat) init_app
       = Some (set_processing false init_app, acts, inr tt) /\
     dialogs acts =
       [(Error, "Error",
         "Job failed: You must install 'obj2vox' package (pip install obj2vox)!")] /\
     filter is_conversion acts = [Act ImportObj2vox]) /\
  (exists acts,
     exec Demo.converter_raises (run_job Demo.cat) init_app
       = Some (set_processing false init_app, acts, inr tt) /\
     dialogs acts = [(Error, "Error", "Job failed: empty mesh")]).
Proof.
  split.
  - apply (proj1 (conversion_failure Demo.cat Demo.no_converter init_app
                    (mkCompleted 0 "done" "") eq_refl eq_refl eq_refl)).
    reflexivity.
  - apply (proj2 (conversion_failure Demo.cat Demo.converter_raises init_app
                    (mkCompleted 0 "done" "") eq_refl eq_refl eq_refl)
             (Exception "empty mesh")); reflexivity.
Defined.

Lemma tool_cannot_be_started_witness :
  exec Demo.no_interpreter (run_job Demo.chair) init_app =
    Some (set_processing false init_app,
          [ Act (VarGet v_config_preset);
            Act (Print [PStr "Running DreamGaussian with:";
                        PList (job_command Demo.chair "auto")]);
            Act (SubprocessRun (job_command Demo.chair "auto"));
            Act (MessageBox Error "Error"
                   "Job failed: [Errno 2] No such file or directory");
            Act (SetProcessing false) ],
          inr tt).
Proof.
  exact (tool_cannot_be_started Demo.chair Demo.no_interpreter init_app
           (Exception "[Errno 2] No such file or directory") eq_refl).
Defined.

Lemma accepted_submission_witness :
  exists a' acts,
    exec Demo.tool_ok enqueue_job Demo.padded = Some (a', acts, inr tt) /\
    processing a' = true /\
    (processing Demo.padded = true ->
       jobs a' = jobs Demo.padded
                 ++ [Job.mk "a red chair" "" "/work" "dreamasset_3" true false true true 256] /\
       job_list a' = job_list Demo.padded ++ ["Job 1: dreamasset_3"] /\
       started acts = []) /\
    (processing Demo.padded = false ->
       started acts = [Job.mk "a red chair" "" "/work" "dreamasset_3" true false true true 256] /\
       jobs a' = [] /\
       job_list a' = []).
Proof.
  exact (accepted_submission Demo.tool_ok Demo.padded 3%nat (or_introl eq_refl) eq_refl).
Defined.

Lemma listing_failure_drops_submission_witness :
  exec Demo.no_directory enqueue_job Demo.padded =
    Some (Demo.padded,
          [ Act (VarGet v_text_prompt); Act (VarGet v_image_path);
            Act (VarGet v_output_dir); Act (ListDir "/work") ],
          inl (Exception "[Errno 2] No such file or directory: '/gone'")).
Proof.
  exact (listing_failure_drops_submission Demo.no_directory Demo.padded
           (Exception "[Errno 2] No such file or directory: '/gone'")
           (or_introl eq_refl) eq_refl).
Defined.

Lemma same_listing_same_name_witness :
  exists a1' acts1 j1 a2' acts2 j2,
    exec Demo.tool_ok enqueue_job Demo.padded = Some (a1', acts1, inr tt) /\
    submitted acts1 = [j1] /\
    exec Demo.tool_fails enqueue_job
      (var_set v_image_path "/tmp/cat.png" (app (run init Demo.submit_two)))
      = Some (a2', acts2, inr tt) /\
    submitted acts2 = [j2] /\
    Job.mesh_name j1 = "dreamasset_3" /\
    Job.mesh_name j2 = Job.mesh_name j1 /\
    mesh_path_of j2 = mesh_path_of j1.
Proof.
  apply (same_listing_same_name Demo.tool_ok Demo.tool_fails Demo.padded
           (var_set v_image_path "/tmp/cat.png" (app (run init Demo.submit_two))) 3%nat);
    first [ left; vm_compute; reflexivity | vm_compute; reflexivity ].
Defined.

Lemma dialog_choices_reach_the_job_witness :
  exists a' acts j,
    exec Demo.tool_ok enqueue_job
      (browse_output "/out" (browse_image "/tmp/cat.png " init_app))
      = Some (a', acts, inr tt) /\
    submitted acts = [j] /\
    Job.img j = "/tmp/cat.png" /\
    Job.out_dir j = "/out" /\
    Job.text j = "" /\
    Job.mesh_name j = "dreamasset_3" /\
    In (Act (ListDir "/out")) acts.
Proof.
  apply (proj2 (proj2 (dialog_choices_reach_the_job Demo.tool_ok init_app
                         "/tmp/cat.png " "/out" 3%nat)));
    [reflexivity | discriminate | reflexivity].
Defined.

Lemma form_to_command_line_witness :
  exists a' acts j,
    exec Demo.tool_ok enqueue_job Demo.padded = Some (a', acts, inr tt) /\
    submitted acts = [j] /\
    forall preset,
      job_command j preset =
        [ "/usr/bin/python3"; "/work/run_dreamgaussian.py";
          "--config"; select_config preset "a red chair" "";
          "--output_dir"; "/work";
          "--name"; "dreamasset_3";
          "--hd"; "--text"; "a red chair" ].
Proof.
  exact (form_to_command_line Demo.tool_ok Demo.padded 3%nat (or_introl eq_refl) eq_refl).
Defined.

End Examples.
